(** * go-myanimelist: the request/response pipeline of package [mal]

    A shallow embedding of the legacy XML client (NewRequest, Do,
    readResponse, post, delete, query and the list services built on them)
    and of the paginated JSON listing (AnimeService.List, parseOffset),
    with the properties of the specification stated and proved on it.

    Go values are rendered as follows: [string] is a Go string (a sequence
    of bytes), [list ascii] is a [[]byte], [Z] is an [int], a pair of a
    result and an [option error] is a Go [(T, error)] return, an [option]
    result is a pointer that may be nil, and a [gmap string (list string)]
    is a [map[string][]string] (http.Header, url.Values). *)

From Stdlib Require Import ZArith List String Ascii Lia Bool.
From stdpp Require Import base gmap strings list sorting.
Import ListNotations.
Open Scope string_scope.
Open Scope list_scope.

(** ** Standard-library functions the client calls *)

(** A Go [error], identified with the text its Error method returns. *)
Definition error : Type := string.

(** [[]byte(s)] and [string(b)]: both conversions keep every byte. *)
Definition bytes_of (s : string) : list ascii := list_ascii_of_string s.
Definition string_of (b : list ascii) : string := string_of_list_ascii b.

Module bytes.

(** bytes.HasPrefix *)
Fixpoint HasPrefix (s prefix : list ascii) {struct prefix} : bool :=
  match prefix, s with
  | [], _ => true
  | _ :: _, [] => false
  | p :: prefix', c :: s' => Ascii.eqb c p && HasPrefix s' prefix'
  end.

(** bytes.Contains *)
Fixpoint Contains (s sub : list ascii) : bool :=
  HasPrefix s sub ||
  match s with
  | [] => false
  | _ :: s' => Contains s' sub
  end.

(** bytes.Count for a non-empty separator: the number of non-overlapping
    instances, scanning from the left.  [skip] is the number of bytes of
    the instance just counted that remain to be passed over. *)
Fixpoint count_from (sep : list ascii) (skip : nat) (s : list ascii) : nat :=
  match s with
  | [] => 0
  | _ :: s' =>
      match skip with
      | S k => count_from sep k s'
      | O => if HasPrefix s sep
             then S (count_from sep (length sep - 1) s')
             else count_from sep 0 s'
      end
  end.

Definition Count (s sep : list ascii) : nat := count_from sep 0 s.

(** bytes.Replace(s, old, new, -1) for a non-empty [old]: a copy of [s] in
    which every non-overlapping instance of [old], found from the left, is
    replaced by [new].  (With an empty [old] the library inserts [new] at
    every rune boundary; the client never calls it that way and that rule
    is not modelled: an empty [old] leaves [s] as it is.) *)
Fixpoint replace_from (old new : list ascii) (skip : nat) (s : list ascii)
  : list ascii :=
  match s with
  | [] => []
  | c :: s' =>
      match skip with
      | S k => replace_from old new k s'
      | O => if HasPrefix s old
             then new ++ replace_from old new (length old - 1) s'
             else c :: replace_from old new 0 s'
      end
  end.

Definition ReplaceAll (s old new : list ascii) : list ascii :=
  match old with
  | [] => s
  | _ :: _ => replace_from old new 0 s
  end.

End bytes.

Module strconv.

(** strconv.Quote decides on Unicode tables how a text is printed between
    double quotes; the client only embeds its result in error texts, so the
    function is taken as it comes. *)
Class Quoting := { Quote : string -> string }.

Definition digit_char (d : Z) : ascii := ascii_of_N (Z.to_N (48 + d)).

(** The digits of a non-negative number, most significant first, put in
    front of [acc]. *)
Fixpoint utoa (fuel : nat) (n : Z) (acc : string) : string :=
  match fuel with
  | O => acc
  | S f =>
      let acc' := String (digit_char (n mod 10)) acc in
      if (n <? 10)%Z then acc' else utoa f (n / 10) acc'
  end.

Definition FormatUint (n : Z) : string :=
  utoa (S (Z.to_nat (Z.log2 n))) n "".

(** strconv.Itoa, which is also what the verb %d prints. *)
Definition Itoa (i : Z) : string :=
  if (i <? 0)%Z then "-" +:+ FormatUint (- i) else FormatUint i.

(** The bounds of [int] (64 bits). *)
Definition minInt : Z := (- 2 ^ 63)%Z.
Definition maxInt : Z := (2 ^ 63 - 1)%Z.

Definition digit_val (c : ascii) : option Z :=
  let n := Z.of_N (N_of_ascii c) in
  if ((48 <=? n) && (n <=? 57))%Z then Some (n - 48)%Z else None.

(** The digit loop of Atoi and ParseUint in base 10: n = n*10 + digit. *)
Fixpoint parse_digits (s : string) (n : Z) : option Z :=
  match s with
  | "" => Some n
  | String c s' =>
      match digit_val c with
      | None => None
      | Some d => parse_digits s' (n * 10 + d)%Z
      end
  end.

(** The text of a *strconv.NumError. *)
Definition NumError `{Quoting} (fn num err : string) : error :=
  "strconv." +:+ fn +:+ ": parsing " +:+ Quote num +:+ ": " +:+ err.

(** strconv.Atoi: an optional sign, then one or more decimal digits, and a
    value that fits [int]; a value out of range is reported with the
    nearest bound. *)
Definition Atoi `{Quoting} (s : string) : Z * option error :=
  let syntax := (0%Z, Some (NumError "Atoi" s "invalid syntax")) in
  let range := Some (NumError "Atoi" s "value out of range") in
  match s with
  | "" => syntax
  | String c rest =>
      let neg := Ascii.eqb c "-" in
      let ds := if neg || Ascii.eqb c "+" then rest else s in
      match ds with
      | "" => syntax
      | _ =>
          match parse_digits ds 0 with
          | None => syntax
          | Some un =>
              let n := if neg then (- un)%Z else un in
              if (n <? minInt)%Z then (minInt, range)
              else if (maxInt <? n)%Z then (maxInt, range)
              else (n, None)
          end
      end
  end.

End strconv.

Module base64.

Definition alphabet (n : N) : ascii :=
  if (n <? 26)%N then ascii_of_N (65 + n)
  else if (n <? 52)%N then ascii_of_N (97 + (n - 26))
  else if (n <? 62)%N then ascii_of_N (48 + (n - 52))
  else if (n =? 62)%N then "+"%char else "/"%char.

(** base64.StdEncoding.EncodeToString *)
Fixpoint EncodeToString (s : string) : string :=
  match s with
  | "" => ""
  | String a "" =>
      let x := N_of_ascii a in
      String (alphabet (x / 4)) (String (alphabet (x mod 4 * 16)) "==")
  | String a (String b "") =>
      let x := N_of_ascii a in
      let y := N_of_ascii b in
      String (alphabet (x / 4))
        (String (alphabet (x mod 4 * 16 + y / 16))
           (String (alphabet (y mod 16 * 4)) "="))
  | String a (String b (String c rest)) =>
      let x := N_of_ascii a in
      let y := N_of_ascii b in
      let z := N_of_ascii c in
      String (alphabet (x / 4))
        (String (alphabet (x mod 4 * 16 + y / 16))
           (String (alphabet (y mod 16 * 4 + z / 64))
              (String (alphabet (z mod 64)) (EncodeToString rest))))
  end.

End base64.

Module url.

Record URL := {
  Scheme : string;
  Opaque : string;
  User : option (string * option string);
  Host : string;
  Path : string;
  RawQuery : string;
  Fragment : string
}.

Definition with_Host (u : URL) (host : string) : URL :=
  {| Scheme := Scheme u; Opaque := Opaque u; User := User u; Host := host;
     Path := Path u; RawQuery := RawQuery u; Fragment := Fragment u |}.

(** url.Values is a map[string][]string. *)
Definition Get (v : gmap string (list string)) (key : string) : string :=
  match v !! key with
  | Some (x :: _) => x
  | _ => ""
  end.

Definition Set_ (v : gmap string (list string)) (key value : string)
  : gmap string (list string) :=
  <[key := [value]]> v.

Definition Add (v : gmap string (list string)) (key value : string)
  : gmap string (list string) :=
  <[key := default [] (v !! key) ++ [value]]> v.

Definition is_alnum (c : ascii) : bool :=
  let n := N_of_ascii c in
  ((48 <=? n) && (n <=? 57) || (65 <=? n) && (n <=? 90)
   || (97 <=? n) && (n <=? 122))%N.

Definition is_unreserved (c : ascii) : bool :=
  is_alnum c || Ascii.eqb c "-" || Ascii.eqb c "_" || Ascii.eqb c "."
  || Ascii.eqb c "~".

Definition upperhex (n : N) : ascii :=
  if (n <? 10)%N then ascii_of_N (48 + n) else ascii_of_N (65 + (n - 10)).

(** url.QueryEscape *)
Fixpoint QueryEscape (s : string) : string :=
  match s with
  | "" => ""
  | String c s' =>
      if Ascii.eqb c " " then String "+" (QueryEscape s')
      else if is_unreserved c then String c (QueryEscape s')
      else
        let n := N_of_ascii c in
        String "%" (String (upperhex (n / 16))
                      (String (upperhex (n mod 16)) (QueryEscape s')))
  end.

Definition unhex (c : ascii) : option N :=
  let n := N_of_ascii c in
  if ((48 <=? n) && (n <=? 57))%N then Some (n - 48)%N
  else if ((97 <=? n) && (n <=? 102))%N then Some (n - 97 + 10)%N
  else if ((65 <=? n) && (n <=? 70))%N then Some (n - 65 + 10)%N
  else None.

(** url.QueryUnescape: every escape must be a percent sign followed by two
    hexadecimal digits; a plus sign stands for a space. *)
Fixpoint QueryUnescape `{strconv.Quoting} (s : string) : string + error :=
  match s with
  | "" => inl ""
  | String c s' =>
      if Ascii.eqb c "%" then
        match s' with
        | String h (String l s'') =>
            match unhex h, unhex l with
            | Some x, Some y =>
                match QueryUnescape s'' with
                | inl r => inl (String (ascii_of_N (x * 16 + y)) r)
                | inr e => inr e
                end
            | _, _ =>
                inr ("invalid URL escape "
                     +:+ strconv.Quote (String c (String h (String l ""))))
            end
        | _ => inr ("invalid URL escape " +:+ strconv.Quote s)
        end
      else
        match QueryUnescape s' with
        | inl r => inl (String (if Ascii.eqb c "+" then " "%char else c) r)
        | inr e => inr e
        end
  end.

(** strings.Split for a one-byte separator. *)
Fixpoint Split (sep : ascii) (s : string) : list string :=
  match s with
  | "" => [""]
  | String c s' =>
      if Ascii.eqb c sep then "" :: Split sep s'
      else match Split sep s' with
           | [] => [String c ""]
           | x :: xs => String c x :: xs
           end
  end.

(** strings.Cut for a one-byte separator: the text before the first
    separator and the text after it (empty when there is none). *)
Fixpoint Cut (sep : ascii) (s : string) : string * string :=
  match s with
  | "" => ("", "")
  | String c s' =>
      if Ascii.eqb c sep then ("", s')
      else let '(before, after) := Cut sep s' in (String c before, after)
  end.

Fixpoint has_byte (c : ascii) (s : string) : bool :=
  match s with
  | "" => false
  | String x s' => Ascii.eqb x c || has_byte c s'
  end.

(** One round of the loop of url.ParseQuery on the pair [pair]: pairs with
    a semicolon, empty pairs and pairs with a malformed escape add
    nothing. *)
Definition parse_pair `{strconv.Quoting} (m : gmap string (list string))
    (pair : string) : gmap string (list string) :=
  if has_byte ";" pair then m
  else if String.eqb pair "" then m
  else
    let '(key, value) := Cut "=" pair in
    match QueryUnescape key with
    | inr _ => m
    | inl key =>
        match QueryUnescape value with
        | inr _ => m
        | inl value => Add m key value
        end
    end.

(** The values url.ParseQuery reads from a query; the pairs it cannot
    read are left out. *)
Definition ParseQuery `{strconv.Quoting} (query : string)
  : gmap string (list string) :=
  fold_left parse_pair (Split "&" query) ∅.

(** URL.Query: the values of RawQuery; ParseQuery's error is dropped and
    the pairs it could read are kept. *)
Definition Query `{strconv.Quoting} (u : URL) : gmap string (list string) :=
  ParseQuery (RawQuery u).

Definition encode_key (v : gmap string (list string)) (k : string)
  : list string :=
  map (fun x => QueryEscape k +:+ "=" +:+ QueryEscape x) (default [] (v !! k)).

(** Values.Encode: key=value pairs joined by ampersands, keys in sorted
    order. *)
Definition Encode (v : gmap string (list string)) : string :=
  let keys :=
    merge_sort (fun a b => Is_true (String.leb a b))
      (map fst (map_to_list v)) in
  String.concat "&" (concat (map (encode_key v) keys)).

(** url.Parse, URL.ResolveReference and URL.String follow RFC 3986 through
    code that is not part of this package; the client is verified against
    their signatures. *)
Class Parsing := {
  Parse : string -> URL + error;
  ResolveReference : URL -> URL -> URL;
  String : URL -> string
}.

End url.

Module http.

Record Request := {
  Method : string;
  URL : url.URL;
  Header : gmap string (list string);
  (* Request.Body; the name Body is kept for the response *)
  ReqBody : string
}.

(** A response body as the reader hands it over: the bytes that arrive
    and, if reading breaks off, the error that ends it. *)
Record ReadCloser := {
  data : list ascii;
  failure : option error
}.

Record Response := {
  StatusCode : Z;
  Body : ReadCloser;
  (* Response.Request, the request that was sent *)
  Request_ : Request
}.

Definition is_token_byte (c : ascii) : bool :=
  url.is_alnum c || url.has_byte c "!#$%&'*+-.^_`|~".

Fixpoint all_token (s : string) : bool :=
  match s with
  | "" => true
  | String c s' => is_token_byte c && all_token s'
  end.

Definition validMethod (method : string) : bool :=
  negb (String.eqb method "") && all_token method.

(** hasPort: the last colon comes after the last closing bracket. *)
Fixpoint hasPort_from (seen : bool) (host : string) : bool :=
  match host with
  | "" => seen
  | String c host' =>
      hasPort_from (if Ascii.eqb c ":" then true
                    else if Ascii.eqb c "]" then false else seen) host'
  end.

(** strings.TrimSuffix(host, ":") *)
Fixpoint trim_colon (host : string) : string :=
  match host with
  | "" => ""
  | String c "" => if Ascii.eqb c ":" then "" else host
  | String c host' => String c (trim_colon host')
  end.

Definition removeEmptyPort (host : string) : string :=
  if hasPort_from false host then trim_colon host else host.

(** http.NewRequest with the body read from a string. *)
Definition NewRequest `{strconv.Quoting} `{url.Parsing}
    (method urlStr body : string) : Request + error :=
  let method := if String.eqb method "" then "GET" else method in
  if negb (validMethod method)
  then inr ("net/http: invalid method " +:+ strconv.Quote method)
  else
    match url.Parse urlStr with
    | inr err => inr err
    | inl u =>
        let u := url.with_Host u (removeEmptyPort (url.Host u)) in
        inl {| Method := method; URL := u; Header := ∅; ReqBody := body |}
    end.

(** Header.Add and Header.Set; the keys the client uses are already in
    canonical form. *)
Definition Header_Add (req : Request) (key value : string) : Request :=
  {| Method := Method req; URL := URL req;
     Header := url.Add (Header req) key value; ReqBody := ReqBody req |}.

Definition Header_Set (req : Request) (key value : string) : Request :=
  {| Method := Method req; URL := URL req;
     Header := url.Set_ (Header req) key value; ReqBody := ReqBody req |}.

(** Request.SetBasicAuth *)
Definition SetBasicAuth (req : Request) (username password : string)
  : Request :=
  Header_Set req "Authorization"
    ("Basic " +:+ base64.EncodeToString (username +:+ ":" +:+ password)).

End http.

Module xml.

Definition replacement_char : string :=
  String (ascii_of_N 239) (String (ascii_of_N 191) (String (ascii_of_N 189) "")).

(** xml.EscapeText on valid UTF-8 text: the five markup characters and
    tab, newline and carriage return become character references, the
    other control bytes become U+FFFD, every other byte is copied. *)
Fixpoint EscapeText (s : string) : string :=
  match s with
  | "" => ""
  | String c s' =>
      let n := N_of_ascii c in
      (if (n =? 34)%N then "&#34;"
       else if (n =? 39)%N then "&#39;"
       else if (n =? 38)%N then "&amp;"
       else if (n =? 60)%N then "&lt;"
       else if (n =? 62)%N then "&gt;"
       else if (n =? 9)%N then "&#x9;"
       else if (n =? 10)%N then "&#xA;"
       else if (n =? 13)%N then "&#xD;"
       else if (n <? 32)%N then replacement_char
       else String c "") +:+ EscapeText s'
  end.

(** A type that a struct field can have: when a value counts as empty for
    the omitempty option, and what is written between the field's tags. *)
Class Field (T : Type) := {
  isEmptyValue : T -> bool;
  content : T -> string
}.

#[global] Instance Field_int : Field Z :=
  {| isEmptyValue := fun n => (n =? 0)%Z; content := strconv.Itoa |}.

#[global] Instance Field_string : Field string :=
  {| isEmptyValue := fun s => String.eqb s ""; content := EscapeText |}.

(** One field of a struct: <name>content</name>, left out when the tag
    says omitempty and the value is empty. *)
Definition element {T : Type} `{Field T} (name : string) (omitempty : bool)
    (v : T) : string :=
  if omitempty && isEmptyValue v then ""
  else "<" +:+ name +:+ ">" +:+ content v +:+ "</" +:+ name +:+ ">".

(** xml.Marshal and xml.Unmarshal go by the dynamic type of their
    argument; a type comes with its encoder or decoder.  Unmarshal fills
    the target in place and reports what went wrong, if anything. *)
Class Marshaler (T : Type) := { Marshal : T -> list ascii + error }.

Class Unmarshaler (T : Type) := {
  Unmarshal : list ascii -> T -> T * option error
}.

(** A target handed over by value: xml.Unmarshal refuses what is not a
    pointer, whatever the input is. *)
Definition not_a_pointer (T : Type) : Unmarshaler T :=
  {| Unmarshal := fun _ v => (v, Some "non-pointer passed to Unmarshal") |}.

End xml.

Module ioutil.

(** ioutil.ReadAll: what was read, and the error if reading broke off. *)
Definition ReadAll (r : http.ReadCloser) : list ascii * option error :=
  (http.data r, http.failure r).

End ioutil.

(** ** The legacy XML client *)

Module Legacy.

Definition defaultBaseURL : string := "http://myanimelist.net/".
Definition defaultUserAgent : string :=
  "api-indiv-2D4068FCF43349DA30D8D4E5667883C2".

Definition updateMangaURL : string :=
  "http://myanimelist.net/api/mangalist/update/".
Definition addMangaURL : string := "http://myanimelist.net/api/mangalist/add/".
Definition deleteMangaURL : string :=
  "http://myanimelist.net/api/animelist/delete/".

Definition updateAnimeURL : string :=
  "http://myanimelist.net/api/animelist/update/".
Definition addAnimeURL : string := "http://myanimelist.net/api/animelist/add/".
Definition deleteAnimeURL : string :=
  "http://myanimelist.net/api/animelist/delete/".

(** The patterns the decoder is protected from, and what they become. *)
Definition bull : list ascii := bytes_of "&bull;".
Definition bull_cdata : list ascii := bytes_of "<![CDATA[&bull;]]>".

Definition bull_tail : list ascii := bytes_of "bull;".
Definition cdata_open : list ascii := bytes_of "<![CDATA[".
Definition cdata_close : list ascii := bytes_of "]]>".

(** What Do does to a body before it decodes it: encoding/xml cannot
    handle the entity &bull;. *)
Definition bull_rewrite (b : list ascii) : list ascii :=
  bytes.ReplaceAll b bull bull_cdata.

(** A value passed as [interface{}] to be encoded, and one passed to be
    decoded into: a value together with its dynamic type. *)
Record body := {
  body_type : Type;
  body_marshaler : xml.Marshaler body_type;
  body_value : body_type
}.

Record target := {
  target_type : Type;
  target_unmarshaler : xml.Unmarshaler target_type;
  target_value : target_type
}.

Definition marshal (b : body) : list ascii + error :=
  @xml.Marshal _ (body_marshaler b) (body_value b).

Definition unmarshal (data : list ascii) (t : target) : target * option error :=
  let '(v, err) := @xml.Unmarshal _ (target_unmarshaler t) data (target_value t) in
  ({| target_type := target_type t;
      target_unmarshaler := target_unmarshaler t;
      target_value := v |}, err).

Record Response := {
  (* the embedded *http.Response *)
  http_Response : http.Response;
  Body : list ascii
}.

Section Client.

Context `{strconv.Quoting} `{url.Parsing}.

(** [client] stands for the *http.Client: its Do method sends a request
    and comes back with a response or with a transport error. *)
Record Client := {
  client : http.Request -> http.Response + error;
  UserAgent : string;
  Username : string;
  Password : string;
  BaseURL : url.URL
}.

Definition SetCredentials (c : Client) (username password : string) : Client :=
  {| client := client c; UserAgent := UserAgent c;
     Username := username; Password := password; BaseURL := BaseURL c |}.

Definition SetUserAgent (c : Client) (userAgent : string) : Client :=
  {| client := client c; UserAgent := userAgent;
     Username := Username c; Password := Password c; BaseURL := BaseURL c |}.

(** The form values of NewRequest: empty, or the field data holding the
    XML of the body. *)
Definition form_values (body : option body)
  : gmap string (list string) + error :=
  match body with
  | None => inl ∅
  | Some b =>
      match marshal b with
      | inr err => inr err
      | inl data => inl (url.Set_ ∅ "data" (string_of data))
      end
  end.

Definition NewRequest (c : Client) (method urlStr : string)
    (body : option body) : http.Request + error :=
  match url.Parse urlStr with
  | inr err => inr err
  | inl rel =>
      let u := url.ResolveReference (BaseURL c) rel in
      match form_values body with
      | inr err => inr err
      | inl v =>
          match http.NewRequest method (url.String u) (url.Encode v) with
          | inr err => inr err
          | inl req =>
              let req :=
                if negb (String.eqb (UserAgent c) "")
                then http.Header_Add req "User-Agent" (UserAgent c)
                else req in
              let req :=
                if negb (String.eqb (Username c) "")
                then http.SetBasicAuth req (Username c) (Password c)
                else req in
              inl req
          end
      end
  end.

Definition readResponse (r : http.Response) : Response * option error :=
  let resp := {| http_Response := r; Body := [] |} in
  let '(data, err) := ioutil.ReadAll (http.Body r) in
  match err with
  | Some e => (resp, Some ("cannot read response body: " +:+ e))
  | None =>
      let resp := {| http_Response := r; Body := data |} in
      if ((http.StatusCode r <? 200) || (299 <? http.StatusCode r))%Z
      then (resp,
            Some (http.Method (http.Request_ r) +:+ " "
                  +:+ url.String (http.URL (http.Request_ r)) +:+ ": "
                  +:+ strconv.Itoa (http.StatusCode r) +:+ " "
                  +:+ string_of data))
      else (resp, None)
  end.

(** Do returns the response (nil only when the transport failed), the
    error, and the target as the decoder left it.  Closing the body, which
    Do defers, has no part in what is returned. *)
Definition Do (c : Client) (req : http.Request) (v : option target)
  : option Response * option error * option target :=
  match client c req with
  | inr err => (None, Some err, v)
  | inl resp =>
      let '(response, err) := readResponse resp in
      match err with
      | Some e => (Some response, Some e, v)
      | None =>
          match v with
          | Some t =>
              let b := Body response in
              let b := bull_rewrite b in
              let '(t', err) := unmarshal b t in
              match err with
              | Some e =>
                  (Some response, Some ("cannot decode: " +:+ e), Some t')
              | None => (Some response, None, Some t')
              end
          | None => (Some response, None, None)
          end
      end
  end.

(** fmt.Sprintf("%s%d.xml", endpoint, id) *)
Definition item_url (endpoint : string) (id : Z) : string :=
  endpoint +:+ strconv.Itoa id +:+ ".xml".

Definition post (c : Client) (endpoint : string) (id : Z)
    (entry : option body) : option Response * option error :=
  match NewRequest c "POST" (item_url endpoint id) entry with
  | inr err => (None, Some err)
  | inl req =>
      let req :=
        http.Header_Add req "Content-Type" "application/x-www-form-urlencoded" in
      match Do c req None with
      | (_, Some err, _) => (None, Some err)
      | (resp, None, _) => (resp, None)
      end
  end.

Definition delete (c : Client) (endpoint : string) (id : Z)
  : option Response * option error :=
  match NewRequest c "DELETE" (item_url endpoint id) None with
  | inr err => (None, Some err)
  | inl req =>
      match Do c req None with
      | (_, Some err, _) => (None, Some err)
      | (resp, None, _) => (resp, None)
      end
  end.

Definition query (c : Client) (url : string) (result : option target)
  : option Response * option error * option target :=
  match NewRequest c "GET" url None with
  | inr err => (None, Some err, result)
  | inl req =>
      match Do c req result with
      | (resp, Some err, v) => (resp, Some err, v)
      | (resp, None, v) => (resp, None, v)
      end
  end.

End Client.

(** *** Anime entries and the anime service *)

Section Anime.

Context `{strconv.Quoting} `{url.Parsing}.

(** The sources do not agree on the type named Status (the test writes
    it as text, the comment of the field speaks of package constants, the
    file declares a struct of that name), and the entry has a float64
    field; the entry is stated over any choice of the two types that can
    be written as a field. *)
Context {StatusType float64 : Type}.
Context `{xml.Field StatusType} `{xml.Field float64}.

Record AnimeEntry := {
  Episode : Z;
  Status : StatusType;
  Score : Z;
  DownloadedEpisodes : Z;
  StorageType : Z;
  StorageValue : float64;
  TimesRewatched : Z;
  RewatchValue : Z;
  DateStart : string;
  DateFinish : string;
  Priority : Z;
  EnableDiscussion : Z;
  EnableRewatching : Z;
  Comments : string;
  FansubGroup : string;
  Tags : string
}.

(** xml.Marshal of an AnimeEntry: the element named by XMLName, the
    fields in the order of the struct, each under the name and the
    omitempty option of its tag. *)
Definition marshal_AnimeEntry (e : AnimeEntry) : string :=
  "<entry>"
  +:+ xml.element "episode" false (Episode e)
  +:+ xml.element "status" true (Status e)
  +:+ xml.element "score" false (Score e)
  +:+ xml.element "downloaded_episodes" true (DownloadedEpisodes e)
  +:+ xml.element "storage_type" true (StorageType e)
  +:+ xml.element "storage_value" true (StorageValue e)
  +:+ xml.element "times_rewatched" false (TimesRewatched e)
  +:+ xml.element "rewatch_value" true (RewatchValue e)
  +:+ xml.element "date_start" true (DateStart e)
  +:+ xml.element "date_finish" true (DateFinish e)
  +:+ xml.element "priority" true (Priority e)
  +:+ xml.element "enable_discussion" true (EnableDiscussion e)
  +:+ xml.element "enable_rewatching" false (EnableRewatching e)
  +:+ xml.element "comments" false (Comments e)
  +:+ xml.element "fansub_group" true (FansubGroup e)
  +:+ xml.element "tags" true (Tags e)
  +:+ "</entry>".

#[global] Instance Marshaler_AnimeEntry : xml.Marshaler AnimeEntry :=
  {| xml.Marshal := fun e => inl (bytes_of (marshal_AnimeEntry e)) |}.

Definition entry_body (e : AnimeEntry) : body :=
  {| body_type := AnimeEntry; body_marshaler := Marshaler_AnimeEntry;
     body_value := e |}.

Record AnimeService := {
  service_client : Client;
  AddEndpoint : url.URL;
  UpdateEndpoint : url.URL;
  DeleteEndpoint : url.URL;
  SearchEndpoint : url.URL;
  ListEndpoint : url.URL
}.

(** The services pass a further argument, true, to post and delete;
    the post and delete of the client have no parameter for it. *)
Definition Add (s : AnimeService) (animeID : Z) (entry : AnimeEntry)
  : option Response * option error :=
  post (service_client s) (url.String (AddEndpoint s)) animeID
    (Some (entry_body entry)).

Definition Update (s : AnimeService) (animeID : Z) (entry : AnimeEntry)
  : option Response * option error :=
  post (service_client s) (url.String (UpdateEndpoint s)) animeID
    (Some (entry_body entry)).

Definition Delete (s : AnimeService) (animeID : Z)
  : option Response * option error :=
  delete (service_client s) (url.String (DeleteEndpoint s)) animeID.

End Anime.

End Legacy.

(** ** The current JSON client: listing with pagination *)

Module Current.

(** Paging provides access to the next and previous page URLs when there
    are pages of results. *)
Record Paging := {
  Next : string;
  Previous : string
}.

Section Listing.

Context `{strconv.Quoting} `{url.Parsing}.

Definition parseOffset (urlStr : string) : Z * option error :=
  match url.Parse urlStr with
  | inr err =>
      (0%Z, Some ("parsing URL " +:+ strconv.Quote urlStr +:+ ": " +:+ err))
  | inl u =>
      let '(offset, err) := strconv.Atoi (url.Get (url.Query u) "offset") in
      match err with
      | Some e => (0%Z, Some ("parsing offset: " +:+ e))
      | None => (offset, None)
      end
  end.

(** List copies Anime values without looking into them. *)
Variable Anime : Type.

(** One element of Data: a struct with the single field Anime, read from
    the key node. *)
Record node := { node_Anime : Anime }.

(** animeList represents the anime list of a user. *)
Record animeList := {
  Data : list node;
  Paging_ : Paging
}.

(** What a response holds besides the offsets (the transport response and
    the buffered body). *)
Variable Received : Type.

(** Modelled from the spec: the Response type of the JSON client is not
    among the sources; it wraps the raw transport response plus the
    buffered body and, for paginated endpoints, the extracted next and
    previous offsets. *)
Record Response := {
  received : Received;
  NextOffset : Z;
  PrevOffset : Z
}.

Definition set_PrevOffset (resp : Response) (offset : Z) : Response :=
  {| received := received resp; NextOffset := NextOffset resp;
     PrevOffset := offset |}.

Definition set_NextOffset (resp : Response) (offset : Z) : Response :=
  {| received := received resp; NextOffset := offset;
     PrevOffset := PrevOffset resp |}.

(** The request builder and the dispatcher of the JSON client are not
    among the sources.  NewRequest is called with a method, a path and a
    nil body; Do is called with the request and a pointer to an empty
    animeList, and either reports no error and hands back the response
    and the list it decoded, or reports an error with whatever response
    it has. *)
Variable NewRequest : string -> string -> http.Request + error.
Variable Do :
  http.Request -> (Response * animeList) + (option Response * error).

Definition set_RawQuery (req : http.Request) (q : string) : http.Request :=
  let u := http.URL req in
  {| http.Method := http.Method req;
     http.URL := {| url.Scheme := url.Scheme u; url.Opaque := url.Opaque u;
                    url.User := url.User u; url.Host := url.Host u;
                    url.Path := url.Path u; url.RawQuery := q;
                    url.Fragment := url.Fragment u |};
     http.Header := http.Header req;
     http.ReqBody := http.ReqBody req |}.

(** The query string List puts on the request. *)
Definition list_query (req : http.Request) (query : string) (limit offset : Z)
    (fields : list string) : string :=
  let q := url.Query (http.URL req) in
  let q := url.Set_ q "q" query in
  let q := if negb (limit =? 0)%Z
           then url.Set_ q "limit" (strconv.Itoa limit) else q in
  let q := if negb (offset =? 0)%Z
           then url.Set_ q "offset" (strconv.Itoa offset) else q in
  let q := if negb (length fields =? 0)%nat
           then url.Set_ q "fields" (String.concat "," fields) else q in
  url.Encode q.

(** The two paging steps of List.  The response is a pointer: what the
    first step writes is still there when the second one fails. *)
Definition previous_step (resp : Response) (paging : Paging)
  : Response + error :=
  if negb (String.eqb (Previous paging) "") then
    match parseOffset (Previous paging) with
    | (_, Some err) => inr ("previous: " +:+ err)
    | (offset, None) => inl (set_PrevOffset resp offset)
    end
  else inl resp.

Definition next_step (resp : Response) (paging : Paging) : Response + error :=
  if negb (String.eqb (Next paging) "") then
    match parseOffset (Next paging) with
    | (_, Some err) => inr ("next: " +:+ err)
    | (offset, None) => inl (set_NextOffset resp offset)
    end
  else inl resp.

(** List allows an authenticated user to receive the anime list of a
    user.  A nil slice and a nil response are [None]. *)
Definition List (query : string) (limit offset : Z) (fields : list string)
  : option (list Anime) * option Response * option error :=
  match NewRequest "GET" "anime" with
  | inr err => (None, None, Some err)
  | inl req =>
      let req := set_RawQuery req (list_query req query limit offset fields) in
      match Do req with
      | inr (resp, err) => (None, resp, Some err)
      | inl (resp, list) =>
          match previous_step resp (Paging_ list) with
          | inr err => (None, Some resp, Some err)
          | inl resp1 =>
              match next_step resp1 (Paging_ list) with
              | inr err => (None, Some resp1, Some err)
              | inl resp2 => (Some (map node_Anime (Data list)), Some resp2, None)
              end
          end
      end
  end.

End Listing.

Arguments Build_node {Anime}.
Arguments node_Anime {Anime}.
Arguments Build_animeList {Anime}.
Arguments Data {Anime}.
Arguments Paging_ {Anime}.
Arguments Build_Response {Received}.
Arguments received {Received}.
Arguments NextOffset {Received}.
Arguments PrevOffset {Received}.
Arguments set_PrevOffset {Received}.
Arguments set_NextOffset {Received}.
Arguments previous_step {_ _ Received}.
Arguments next_step {_ _ Received}.
Arguments List {_ _ Anime Received}.

End Current.

(** ** A small instance of the library signatures

    The client is verified for every url.Parse, ResolveReference, String
    and Quote.  To run it on concrete requests this module gives one
    instance, for URLs in plain ASCII made of a scheme, a host, a path, a
    query and a fragment (percent-escapes, user information and dot
    segments are left as they are), and a few stub servers. *)

Module Sample.

Definition dquote : string := String (ascii_of_N 34) "".

Definition Quote (s : string) : string := dquote +:+ s +:+ dquote.

Definition quoting : strconv.Quoting := {| strconv.Quote := Quote |}.

Fixpoint has_control (s : string) : bool :=
  match s with
  | "" => false
  | String c s' =>
      let n := N_of_ascii c in
      (n <? 32)%N || (n =? 127)%N || has_control s'
  end.

Definition is_letter (c : ascii) : bool :=
  let n := N_of_ascii c in
  ((65 <=? n) && (n <=? 90) || (97 <=? n) && (n <=? 122))%N.

Definition is_scheme_byte (c : ascii) : bool :=
  url.is_alnum c || Ascii.eqb c "+" || Ascii.eqb c "-" || Ascii.eqb c ".".

(** getScheme: the text before the first colon when it is a letter
    followed by letters, digits, plus, minus and dots. *)
Fixpoint scan_scheme (first : bool) (s : string) : option (string * string) :=
  match s with
  | "" => None
  | String c s' =>
      if Ascii.eqb c ":" then (if first then None else Some ("", s'))
      else if is_letter c || (negb first && is_scheme_byte c) then
        match scan_scheme false s' with
        | Some (scheme, rest) => Some (String c scheme, rest)
        | None => None
        end
      else None
  end.

Definition starts_with (p s : string) : bool := String.prefix p s.

Definition drop2 (s : string) : string :=
  match s with
  | String _ (String _ r) => r
  | _ => ""
  end.

(** The text up to the first slash, and the text from that slash on. *)
Fixpoint split_authority (s : string) : string * string :=
  match s with
  | "" => ("", "")
  | String c s' =>
      if Ascii.eqb c "/" then ("", s)
      else let '(a, p) := split_authority s' in (String c a, p)
  end.

Definition parse_error (u msg : string) : error :=
  "parse " +:+ Quote u +:+ ": " +:+ msg.

Definition Parse (rawURL : string) : url.URL + error :=
  let '(u, frag) := url.Cut "#" rawURL in
  if has_control u
  then inr (parse_error u "net/url: invalid control character in URL")
  else if String.eqb u ":" || starts_with ":" u
  then inr (parse_error u "missing protocol scheme")
  else
    let '(scheme, rest) :=
      match scan_scheme true u with
      | Some (scheme, rest) => (scheme, rest)
      | None => ("", u)
      end in
    let '(rest, rawquery) := url.Cut "?" rest in
    if negb (starts_with "/" rest) && negb (String.eqb scheme "")
    then inl {| url.Scheme := scheme; url.Opaque := rest; url.User := None;
                url.Host := ""; url.Path := ""; url.RawQuery := rawquery;
                url.Fragment := frag |}
    else if negb (starts_with "/" rest)
            && url.has_byte ":" (fst (split_authority rest))
    then inr (parse_error u "first path segment in URL cannot contain colon")
    else
      let '(host, path) :=
        if starts_with "//" rest then split_authority (drop2 rest)
        else ("", rest) in
      inl {| url.Scheme := scheme; url.Opaque := ""; url.User := None;
             url.Host := host; url.Path := path; url.RawQuery := rawquery;
             url.Fragment := frag |}.

(** The text up to and including the last slash. *)
Fixpoint directory (s : string) : string :=
  match s with
  | "" => ""
  | String c s' =>
      if url.has_byte "/" s then String c (directory s') else ""
  end.

Definition resolvePath (base ref : string) : string :=
  if String.eqb ref "" then base
  else if starts_with "/" ref then ref
  else directory base +:+ ref.

Definition ResolveReference (u ref : url.URL) : url.URL :=
  if negb (String.eqb (url.Scheme ref) "") || negb (String.eqb (url.Host ref) "")
  then {| url.Scheme := if String.eqb (url.Scheme ref) ""
                        then url.Scheme u else url.Scheme ref;
          url.Opaque := url.Opaque ref; url.User := url.User ref;
          url.Host := url.Host ref; url.Path := url.Path ref;
          url.RawQuery := url.RawQuery ref; url.Fragment := url.Fragment ref |}
  else
    let keep := String.eqb (url.Path ref) "" && String.eqb (url.RawQuery ref) "" in
    {| url.Scheme := url.Scheme u; url.Opaque := ""; url.User := url.User u;
       url.Host := url.Host u;
       url.Path := resolvePath (url.Path u) (url.Path ref);
       url.RawQuery := if keep then url.RawQuery u else url.RawQuery ref;
       url.Fragment := if keep && String.eqb (url.Fragment ref) ""
                       then url.Fragment u else url.Fragment ref |}.

Definition String_ (u : url.URL) : string :=
  (if String.eqb (url.Scheme u) "" then "" else url.Scheme u +:+ ":")
  +:+ (if negb (String.eqb (url.Opaque u) "") then url.Opaque u
       else
         (if negb (String.eqb (url.Host u) "") then "//" +:+ url.Host u
          else "")
         +:+ (if negb (String.eqb (url.Path u) "")
                 && negb (starts_with "/" (url.Path u))
                 && negb (String.eqb (url.Host u) "")
              then "/" else "")
         +:+ url.Path u)
  +:+ (if String.eqb (url.RawQuery u) "" then "" else "?" +:+ url.RawQuery u)
  +:+ (if String.eqb (url.Fragment u) "" then "" else "#" +:+ url.Fragment u).

Definition parsing : url.Parsing :=
  {| url.Parse := Parse; url.ResolveReference := ResolveReference;
     url.String := String_ |}.

Definition base : url.URL :=
  {| url.Scheme := "http"; url.Opaque := ""; url.User := None;
     url.Host := "myanimelist.net"; url.Path := "/"; url.RawQuery := "";
     url.Fragment := "" |}.

Definition reply (status : Z) (text : string) (req : http.Request)
  : http.Response :=
  {| http.StatusCode := status;
     http.Body := {| http.data := bytes_of text; http.failure := None |};
     http.Request_ := req |}.

(** A server that answers every request with the given status and text. *)
Definition fixed_server (status : Z) (text : string)
  : http.Request -> http.Response + error :=
  fun req => inl (reply status text req).

(** A server that answers 200 with the method and the URL it was asked
    for. *)
Definition echo_server : http.Request -> http.Response + error :=
  fun req =>
    inl (reply 200 (http.Method req +:+ " " +:+ String_ (http.URL req)) req).

(** A server that answers 200 with the content type and the body of the
    request. *)
Definition mirror_server : http.Request -> http.Response + error :=
  fun req =>
    inl (reply 200 (url.Get (http.Header req) "Content-Type" +:+ " "
                    +:+ http.ReqBody req) req).

(** A connection that breaks while the body is read. *)
Definition broken_server (status : Z) : http.Request -> http.Response + error :=
  fun req =>
    inl {| http.StatusCode := status;
           http.Body := {| http.data := [];
                           http.failure := Some "unexpected EOF" |};
           http.Request_ := req |}.

Definition new_client (transport : http.Request -> http.Response + error)
    (username password agent : string) : @Legacy.Client :=
  {| Legacy.client := transport; Legacy.UserAgent := agent;
     Legacy.Username := username; Legacy.Password := password;
     Legacy.BaseURL := base |}.

Definition must_parse (s : string) : url.URL :=
  match Parse s with
  | inl u => u
  | inr _ => base
  end.

Definition anime_service (c : Legacy.Client) : Legacy.AnimeService :=
  {| Legacy.service_client := c;
     Legacy.AddEndpoint := must_parse Legacy.addAnimeURL;
     Legacy.UpdateEndpoint := must_parse Legacy.updateAnimeURL;
     Legacy.DeleteEndpoint := must_parse Legacy.deleteAnimeURL;
     Legacy.SearchEndpoint :=
       must_parse "http://myanimelist.net/api/anime/search.xml";
     Legacy.ListEndpoint := must_parse "http://myanimelist.net/malappinfo.php" |}.

(** A float64 field that is left at zero. *)
Inductive zero64 : Type := Zero64.

Definition field_zero64 : xml.Field zero64 :=
  {| xml.isEmptyValue := fun _ => true; xml.content := fun _ => "0" |}.

(** AnimeEntry{Status: status}, with the status given as text. *)
Definition entry_with_status (status : string)
  : @Legacy.AnimeEntry string zero64 :=
  {| Legacy.Episode := 0; Legacy.Status := status; Legacy.Score := 0;
     Legacy.DownloadedEpisodes := 0; Legacy.StorageType := 0;
     Legacy.StorageValue := Zero64; Legacy.TimesRewatched := 0;
     Legacy.RewatchValue := 0; Legacy.DateStart := ""; Legacy.DateFinish := "";
     Legacy.Priority := 0; Legacy.EnableDiscussion := 0;
     Legacy.EnableRewatching := 0; Legacy.Comments := "";
     Legacy.FansubGroup := ""; Legacy.Tags := "" |}.

(** GET http://myanimelist.net/api/anime/search.xml?q=bebop *)
Definition search_request : http.Request :=
  {| http.Method := "GET";
     http.URL := must_parse "http://myanimelist.net/api/anime/search.xml?q=bebop";
     http.Header := ∅;
     http.ReqBody := "" |}.

(** A client with a password and no username, and a request it builds. *)
Definition anonymous : Legacy.Client :=
  new_client echo_server "" "TestPass" "TestAgent".

Definition anonymous_request : http.Request :=
  match @Legacy.NewRequest quoting parsing anonymous "GET"
          "api/anime/search.xml?q=bebop" None with
  | inl req => req
  | inr _ => search_request
  end.

(** A stub of the JSON client: requests are built against the API root,
    and every list request is answered with one page of three titles
    that has a next page and no previous one. *)
Definition json_NewRequest (method path : string) : http.Request + error :=
  @http.NewRequest quoting parsing method
    ("https://api.myanimelist.net/v2/" +:+ path) "".

Definition first_page : Current.animeList string :=
  {| Current.Data :=
       [ {| Current.node_Anime := "Hokuto no Ken" |};
         {| Current.node_Anime := "Hokuto no Ken 2" |};
         {| Current.node_Anime := "Hokuto no Ken Movie" |} ];
     Current.Paging_ :=
       {| Current.Next :=
            "https://api.myanimelist.net/v2/anime?offset=5&limit=5&q=hokuto+no+ken";
          Current.Previous := "" |} |}.

Definition json_Do (req : http.Request)
  : (Current.Response Z * Current.animeList string)
    + (option (Current.Response Z) * error) :=
  inl ({| Current.received := 200%Z; Current.NextOffset := 0;
          Current.PrevOffset := 0 |}, first_page).

Definition list_request : http.Request :=
  match json_NewRequest "GET" "anime" with
  | inl req => req
  | inr _ => search_request
  end.

(** A target whose decoder accepts every input and keeps it as text, and
    a target of the same type handed over by value. *)
Definition keep_text : xml.Unmarshaler string :=
  {| xml.Unmarshal := fun data _ => (string_of data, None) |}.

Definition text_target (v : string) : Legacy.target :=
  {| Legacy.target_type := string; Legacy.target_unmarshaler := keep_text;
     Legacy.target_value := v |}.

Definition value_target (v : string) : Legacy.target :=
  {| Legacy.target_type := string;
     Legacy.target_unmarshaler := xml.not_a_pointer string;
     Legacy.target_value := v |}.

End Sample.

(** ** Notions the properties are stated with *)

Module Spec.

(** [digits_of s n]: the text [s] is one or more decimal digits and [n]
    is the number they write in positional notation. *)
Inductive digits_of : string -> Z -> Prop :=
| digits_one (d : Z) :
    (0 <= d <= 9)%Z -> digits_of (String (strconv.digit_char d) "") d
| digits_more (d : Z) (s : string) (n : Z) :
    (0 <= d <= 9)%Z -> digits_of s n ->
    digits_of (String (strconv.digit_char d) s)
      (d * 10 ^ Z.of_nat (String.length s) + n)%Z.

(** [decimal_of s n]: the text [s] is a decimal integer, digits with an
    optional sign in front, and [n] is its value. *)
Inductive decimal_of : string -> Z -> Prop :=
| decimal_plain (s : string) (n : Z) : digits_of s n -> decimal_of s n
| decimal_plus (s : string) (n : Z) :
    digits_of s n -> decimal_of (String "+" s) n
| decimal_minus (s : string) (n : Z) :
    digits_of s n -> decimal_of (String "-" s) (- n)%Z.

(** [cdata_wrapped t]: wherever the text [t] holds &bull;, the entity
    stands between the opening and the closing of a CDATA section. *)
Definition cdata_wrapped (t : list ascii) : Prop :=
  forall a b : list ascii,
    t = a ++ Legacy.bull ++ b ->
    exists a' b' : list ascii,
      a = a' ++ Legacy.cdata_open /\ b = Legacy.cdata_close ++ b'.

(** The text of the error for a status outside 200..299: the method,
    the URL, the status code and the body text. *)
Definition status_error `{url.Parsing} (r : http.Response)
    (body : list ascii) : error :=
  http.Method (http.Request_ r) +:+ " "
  +:+ url.String (http.URL (http.Request_ r)) +:+ ": "
  +:+ strconv.Itoa (http.StatusCode r) +:+ " " +:+ string_of body.

(** The values of type [int]. *)
Definition is_int (n : Z) : Prop := (strconv.minInt <= n <= strconv.maxInt)%Z.

(** The offset a page URL stands for: an empty URL leaves the offset as
    it was, another URL gives the integer its offset parameter writes. *)
Definition page_offset `{strconv.Quoting} `{url.Parsing}
    (pageURL : string) (before after : Z) : Prop :=
  (pageURL = "" /\ after = before)
  \/ (pageURL <> ""
      /\ exists u : url.URL,
           url.Parse pageURL = inl u
           /\ decimal_of (url.Get (url.Query u) "offset") after
           /\ is_int after).

End Spec.

(** ** The search of the legacy anime service *)

Module AnimeSearch.

Section Search.

Context `{strconv.Quoting} `{url.Parsing}.

Variable float64 : Type.

(** AnimeRow represents each row of an anime search result. *)
Record AnimeRow := {
  ID : Z;
  Title : string;
  English : string;
  Synonyms : string;
  Score : float64;
  Type_ : string;
  Status : string;
  StartDate : string;
  EndDate : string;
  Synopsis : string;
  Image : string;
  Episodes : Z
}.

(** AnimeResult represents the result of an anime search. *)
Record AnimeResult := { Rows : list AnimeRow }.

(** new(AnimeResult) *)
Definition new_AnimeResult : AnimeResult := {| Rows := [] |}.

(** The get of the client is not among the sources: it is called with a
    URL, the result to decode into and the flag true, and hands back a
    response, an error and the result as it left it. *)
Variable get :
  string -> AnimeResult ->
  option Legacy.Response * option error * AnimeResult.

Definition set_SearchEndpoint (s : Legacy.AnimeService) (u : url.URL)
  : Legacy.AnimeService :=
  {| Legacy.service_client := Legacy.service_client s;
     Legacy.AddEndpoint := Legacy.AddEndpoint s;
     Legacy.UpdateEndpoint := Legacy.UpdateEndpoint s;
     Legacy.DeleteEndpoint := Legacy.DeleteEndpoint s;
     Legacy.SearchEndpoint := u;
     Legacy.ListEndpoint := Legacy.ListEndpoint s |}.

Definition with_RawQuery (u : url.URL) (q : string) : url.URL :=
  {| url.Scheme := url.Scheme u; url.Opaque := url.Opaque u;
     url.User := url.User u; url.Host := url.Host u; url.Path := url.Path u;
     url.RawQuery := q; url.Fragment := url.Fragment u |}.

(** Search allows an authenticated user to search anime titles.  The
    service is a pointer and Search writes the query into its search
    endpoint: the service as Search leaves it is returned beside the
    results. *)
Definition Search (s : Legacy.AnimeService) (query : string)
  : (option AnimeResult * option Legacy.Response * option error)
    * Legacy.AnimeService :=
  let v := url.Query (Legacy.SearchEndpoint s) in
  let v := url.Set_ v "q" query in
  let s :=
    set_SearchEndpoint s
      (with_RawQuery (Legacy.SearchEndpoint s) (url.Encode v)) in
  let result := new_AnimeResult in
  let '(resp, err, result) :=
    get (url.String (Legacy.SearchEndpoint s)) result in
  match err with
  | Some e => ((None, resp, Some e), s)
  | None => ((Some result, resp, None), s)
  end.

End Search.

Arguments Search {_ _ float64}.

End AnimeSearch.

(** ** The options of the manga list of the JSON client *)

Module MangaOptions.

(** MangaStatus is an option that allows to filter the returned manga
    list by the specified status; it can also be passed as an option when
    updating the manga list. *)
Definition MangaStatus : Type := string.

Definition MangaStatusReading : MangaStatus := "reading".
Definition MangaStatusCompleted : MangaStatus := "completed".
Definition MangaStatusOnHold : MangaStatus := "on_hold".
Definition MangaStatusDropped : MangaStatus := "dropped".
Definition MangaStatusPlanToRead : MangaStatus := "plan_to_read".

(** strconv.FormatBool *)
Definition FormatBool (b : bool) : string := if b then "true" else "false".

Section Options.

(** The helper itoa is not among the sources; it turns an int into
    text. *)
Variable itoa : Z -> string.

(** The types of this file that implement the interface
    UpdateMyMangaListStatusOption. *)
Inductive UpdateMyMangaListStatusOption : Type :=
| Status (s : MangaStatus)
| IsRereading (r : bool)
| NumVolumesRead (n : Z)
| NumChaptersRead (n : Z)
| NumTimesReread (n : Z)
| RereadValue (r : Z).

Definition mangaListApply (s : MangaStatus) (v : gmap string (list string))
  : gmap string (list string) :=
  url.Set_ v "status" s.

Definition updateMyMangaListStatusApply (o : UpdateMyMangaListStatusOption)
    (v : gmap string (list string)) : gmap string (list string) :=
  match o with
  | Status s => url.Set_ v "status" s
  | IsRereading r => url.Set_ v "is_rereading" (FormatBool r)
  | NumVolumesRead n => url.Set_ v "num_volumes_read" (itoa n)
  | NumChaptersRead n => url.Set_ v "num_chapters_read" (itoa n)
  | NumTimesReread n => url.Set_ v "num_times_reread" (itoa n)
  | RereadValue r => url.Set_ v "reread_value" (itoa r)
  end.

Definition rawOptionFromUpdateMyMangaListStatusOption
    (o : UpdateMyMangaListStatusOption)
  : gmap string (list string) -> gmap string (list string) :=
  fun v => updateMyMangaListStatusApply o v.

End Options.

End MangaOptions.

(** ** Further notions the properties are stated with *)

Module Notions.

(** One pair as Values.Encode writes it. *)
Definition encode_pair (k x : string) : string :=
  url.QueryEscape k +:+ "=" +:+ url.QueryEscape x.

(** The pairs of a value set, key by key. *)
Definition pairs_of (v : gmap string (list string)) (keys : list string)
  : list (string * string) :=
  concat (map (fun k => map (fun x => (k, x)) (default [] (v !! k))) keys).

Definition add_all (m : gmap string (list string)) (k : string)
    (xs : list string) : gmap string (list string) :=
  fold_left (fun m p => url.Add m p.1 p.2) (map (fun x => (k, x)) xs) m.

(** No key is bound to an empty list of values. *)
Definition nonempty_values (v : gmap string (list string)) : Prop :=
  forall k : string, v !! k <> Some [].

(** A call returns either a response and no error, or an error and no
    response. *)
Definition one_of_two (r : option Legacy.Response * option error) : Prop :=
  (exists resp : Legacy.Response, r = (Some resp, None))
  \/ (exists err : error, r = (None, Some err)).

(** The key an update option is about and the text it gives it. *)
Definition option_key (o : MangaOptions.UpdateMyMangaListStatusOption)
  : string :=
  match o with
  | MangaOptions.Status _ => "status"
  | MangaOptions.IsRereading _ => "is_rereading"
  | MangaOptions.NumVolumesRead _ => "num_volumes_read"
  | MangaOptions.NumChaptersRead _ => "num_chapters_read"
  | MangaOptions.NumTimesReread _ => "num_times_reread"
  | MangaOptions.RereadValue _ => "reread_value"
  end.

Definition option_text (itoa : Z -> string)
    (o : MangaOptions.UpdateMyMangaListStatusOption) : string :=
  match o with
  | MangaOptions.Status s => s
  | MangaOptions.IsRereading r => MangaOptions.FormatBool r
  | MangaOptions.NumVolumesRead n => itoa n
  | MangaOptions.NumChaptersRead n => itoa n
  | MangaOptions.NumTimesReread n => itoa n
  | MangaOptions.RereadValue r => itoa r
  end.

(** The options applied one after the other, the first one first. *)
Definition apply_options (itoa : Z -> string)
    (options : list MangaOptions.UpdateMyMangaListStatusOption)
    (v : gmap string (list string)) : gmap string (list string) :=
  fold_left
    (fun v o => MangaOptions.rawOptionFromUpdateMyMangaListStatusOption itoa o v)
    options v.

(** The last option of a list that is about the key [k]. *)
Fixpoint last_for (k : string)
    (options : list MangaOptions.UpdateMyMangaListStatusOption)
  : option MangaOptions.UpdateMyMangaListStatusOption :=
  match options with
  | [] => None
  | o :: rest =>
      match last_for k rest with
      | Some o' => Some o'
      | None => if String.eqb (option_key o) k then Some o else None
      end
  end.

End Notions.

(** ** More sample values *)

Module MoreSamples.

(** The request Add builds for anime 55 and the entry with the status
    watching, before post adds the content type. *)
Definition add_client : Legacy.Client :=
  Sample.new_client (Sample.fixed_server 200 "Created")
    "TestUser" "TestPass" "TestAgent".

Definition add_request : http.Request :=
  match @Legacy.NewRequest Sample.quoting Sample.parsing add_client "POST"
          (Legacy.item_url Legacy.addAnimeURL 55)
          (Some (@Legacy.entry_body string Sample.zero64 xml.Field_string
                   Sample.field_zero64 (Sample.entry_with_status "watching")))
  with
  | inl req => req
  | inr _ => Sample.search_request
  end.

(** A client without credentials or user agent whose server answers 404,
    and the request query builds with it. *)
Definition plain_client : Legacy.Client :=
  Sample.new_client (Sample.fixed_server 404 "Not Found") "" "" "".

Definition plain_request : http.Request :=
  match @Legacy.NewRequest Sample.quoting Sample.parsing plain_client "GET"
          "api/anime/search.xml?q=bebop" None with
  | inl req => req
  | inr _ => Sample.search_request
  end.

(** A page whose next URL carries no offset. *)
Definition last_page : Current.animeList string :=
  {| Current.Data := [ {| Current.node_Anime := "Hokuto no Ken" |} ];
     Current.Paging_ :=
       {| Current.Next := "https://api.myanimelist.net/v2/anime?limit=5";
          Current.Previous :=
            "https://api.myanimelist.net/v2/anime?offset=5&limit=5" |} |}.

Definition json_Do_last (req : http.Request)
  : (Current.Response Z * Current.animeList string)
    + (option (Current.Response Z) * error) :=
  inl ({| Current.received := 200%Z; Current.NextOffset := 0;
          Current.PrevOffset := 0 |}, last_page).

End MoreSamples.

Import bytes.

(** ** Facts about the byte-level functions *)

Section BytesFacts.

Lemma HasPrefix_app (s p : list ascii) :
  HasPrefix s p = true <-> exists r, s = p ++ r.
Proof.
  revert s; induction p as [|a p IH]; intros s; simpl.
  - split; [intros _; exists s; reflexivity | reflexivity].
  - destruct s as [|c s]; simpl.
    + split; [discriminate | intros [r Hr]; discriminate].
    + rewrite andb_true_iff, Ascii.eqb_eq, IH. split.
      * intros [-> [r ->]]. exists r; reflexivity.
      * intros [r Hr]. injection Hr as -> ->. split; [reflexivity | eauto].
Qed.

Lemma Contains_occurs (s sub : list ascii) :
  Contains s sub = true <-> exists a b, s = a ++ sub ++ b.
Proof.
  induction s as [|c s IH]; simpl.
  - rewrite orb_false_r, HasPrefix_app. split.
    + intros [r Hr]. exists [], r. exact Hr.
    + intros [a [b Hab]]. destruct a; simpl in Hab; [eauto | discriminate].
  - rewrite orb_true_iff, IH, HasPrefix_app. split.
    + intros [[r Hr] | [a [b Hab]]].
      * exists [], r. exact Hr.
      * exists (c :: a), b. simpl. now rewrite Hab.
    + intros [a [b Hab]]. destruct a as [|x a]; simpl in Hab.
      * left. eauto.
      * right. injection Hab as _ ->. eauto.
Qed.

Lemma Contains_tail (c : ascii) (s sub : list ascii) :
  Contains (c :: s) sub = false -> Contains s sub = false.
Proof. simpl. intros H. apply orb_false_iff in H. tauto. Qed.

Lemma Contains_head (s sub : list ascii) :
  Contains s sub = false -> HasPrefix s sub = false.
Proof. destruct s; simpl; intros H; apply orb_false_iff in H; tauto. Qed.

(** Passing over the rest of an instance: [k] bytes are dropped. *)
Lemma replace_from_skip (old new : list ascii) (k : nat) (p r : list ascii) :
  length p = k -> replace_from old new k (p ++ r) = replace_from old new 0 r.
Proof.
  revert k; induction p as [|c p IH]; intros k Hk; simpl in *; subst k.
  - reflexivity.
  - now apply IH.
Qed.

Lemma count_from_skip (sep : list ascii) (k : nat) (p r : list ascii) :
  length p = k -> count_from sep k (p ++ r) = count_from sep 0 r.
Proof.
  revert k; induction p as [|c p IH]; intros k Hk; simpl in *; subst k.
  - reflexivity.
  - now apply IH.
Qed.

(** The two equations of the replacement loop. *)
Lemma replace_from_hit (o : ascii) (old new r : list ascii) :
  replace_from (o :: old) new 0 ((o :: old) ++ r)
  = new ++ replace_from (o :: old) new 0 r.
Proof.
  assert (Hp : HasPrefix ((o :: old) ++ r) (o :: old) = true)
    by (apply HasPrefix_app; eauto).
  cbn [replace_from app]. cbn [app] in Hp. rewrite Hp.
  f_equal. apply replace_from_skip. simpl. lia.
Qed.

Lemma replace_from_miss (old new : list ascii) (c : ascii) (s : list ascii) :
  HasPrefix (c :: s) old = false ->
  replace_from old new 0 (c :: s) = c :: replace_from old new 0 s.
Proof. intros H. cbn [replace_from]. now rewrite H. Qed.

Lemma count_from_hit (o : ascii) (sep r : list ascii) :
  count_from (o :: sep) 0 ((o :: sep) ++ r) = S (count_from (o :: sep) 0 r).
Proof.
  assert (Hp : HasPrefix ((o :: sep) ++ r) (o :: sep) = true)
    by (apply HasPrefix_app; eauto).
  cbn [count_from app]. cbn [app] in Hp. rewrite Hp.
  f_equal. apply count_from_skip. simpl. lia.
Qed.

(** Without an instance of [old] nothing is replaced. *)
Lemma replace_from_absent (old new s : list ascii) :
  Contains s old = false -> replace_from old new 0 s = s.
Proof.
  induction s as [|c s IH]; intros H; [reflexivity|].
  rewrite replace_from_miss by now apply Contains_head.
  f_equal. apply IH. eapply Contains_tail, H.
Qed.

Lemma ReplaceAll_absent (s old new : list ascii) :
  Contains s old = false -> ReplaceAll s old new = s.
Proof.
  intros H. destruct old; [reflexivity|]. now apply replace_from_absent.
Qed.

(** With an instance, the leftmost one is replaced and the loop goes on
    behind it. *)
Lemma replace_from_first (o : ascii) (old new s : list ascii) :
  Contains s (o :: old) = true ->
  exists a r, s = a ++ (o :: old) ++ r
    /\ Contains a (o :: old) = false
    /\ replace_from (o :: old) new 0 s
       = a ++ new ++ replace_from (o :: old) new 0 r
    /\ count_from (o :: old) 0 s = S (count_from (o :: old) 0 r).
Proof.
  induction s as [|c s IH]; intros H; [discriminate|].
  destruct (HasPrefix (c :: s) (o :: old)) eqn:Hp.
  - apply HasPrefix_app in Hp as [r Hr]. exists [], r. rewrite Hr.
    split; [reflexivity|]. split; [reflexivity|]. split.
    + apply replace_from_hit.
    + apply count_from_hit.
  - assert (Hs : Contains s (o :: old) = true).
    { cbn [Contains] in H. rewrite Hp in H. exact H. }
    destruct (IH Hs) as (a & r & Heq & Hfree & Hrep & Hcnt).
    exists (c :: a), r. split; [simpl; now rewrite Heq|]. split; [|split].
    + cbn [Contains]. rewrite Hfree, orb_false_r.
      destruct (HasPrefix (c :: a) (o :: old)) eqn:Hpa; [|reflexivity].
      apply HasPrefix_app in Hpa as [x Hx].
      assert (Hyes : HasPrefix (c :: s) (o :: old) = true).
      { apply HasPrefix_app. exists (x ++ (o :: old) ++ r).
        rewrite Heq, app_comm_cons, Hx. now rewrite <- app_assoc. }
      congruence.
    + rewrite replace_from_miss by exact Hp. now rewrite Hrep.
    + cbn [count_from]. now rewrite Hp.
Qed.

Lemma count_from_absent (sep s : list ascii) :
  Contains s sep = false -> count_from sep 0 s = 0.
Proof.
  induction s as [|c s IH]; intros H; [reflexivity|].
  cbn [count_from]. rewrite (Contains_head _ _ H).
  apply IH. eapply Contains_tail, H.
Qed.

(** Every replacement changes the length by the same amount. *)
Lemma replace_from_length (o : ascii) (old new s : list ascii) :
  length (replace_from (o :: old) new 0 s)
    + count_from (o :: old) 0 s * length (o :: old)
  = length s + count_from (o :: old) 0 s * length new.
Proof.
  remember (length s) as n eqn:Hn. revert s Hn.
  induction n as [n IH] using lt_wf_ind. intros s Hn.
  destruct (Contains s (o :: old)) eqn:Hc.
  - destruct (replace_from_first o old new s Hc)
      as (a & r & Heq & _ & Hrep & Hcnt).
    assert (Hlen : length s = length a + (length (o :: old) + length r)).
    { rewrite Heq at 1. now rewrite !length_app. }
    assert (Hr : length r < n) by (simpl in Hlen; lia).
    specialize (IH _ Hr r eq_refl).
    rewrite Hrep, Hcnt, !length_app. lia.
  - rewrite replace_from_absent, count_from_absent by exact Hc. lia.
Qed.

(** A replacement text that itself holds the pattern brings every instance
    back. *)
Lemma replace_from_keeps (o : ascii) (old new s : list ascii) :
  Contains new (o :: old) = true ->
  Contains s (o :: old) = true ->
  Contains (replace_from (o :: old) new 0 s) (o :: old) = true.
Proof.
  intros Hnew Hs.
  destruct (replace_from_first o old new s Hs) as (a & r & _ & _ & Hrep & _).
  apply Contains_occurs in Hnew as (x & y & Hxy).
  apply Contains_occurs. rewrite Hrep. subst new.
  exists (a ++ x). eexists.
  rewrite <- !app_assoc. reflexivity.
Qed.

(** Replacing is the identity exactly on the texts without an instance,
    when the replacement is longer than the pattern. *)
Lemma replace_from_fixed (o : ascii) (old new s : list ascii) :
  length (o :: old) < length new ->
  replace_from (o :: old) new 0 s = s -> Contains s (o :: old) = false.
Proof.
  intros Hlt Hfix.
  destruct (Contains s (o :: old)) eqn:Hc; [exfalso | reflexivity].
  pose proof (replace_from_length o old new s) as Hlen.
  destruct (replace_from_first o old new s Hc) as (a & r & _ & _ & _ & Hcnt).
  rewrite Hfix, Hcnt in Hlen. nia.
Qed.

End BytesFacts.

(** ** The rewrite of the entity &bull; *)

Section BullRewrite.

Import Legacy.

Lemma bull_rewrite_eq (b : list ascii) :
  bull_rewrite b = replace_from ("&"%char :: bull_tail) bull_cdata 0 b.
Proof. reflexivity. Qed.

Lemma bull_absent (b : list ascii) :
  Contains b bull = false -> bull_rewrite b = b.
Proof. apply ReplaceAll_absent. Qed.

Lemma bull_present (b : list ascii) :
  Contains b bull = true -> Contains (bull_rewrite b) bull = true.
Proof.
  intros Hb. rewrite bull_rewrite_eq.
  apply (replace_from_keeps "&"%char bull_tail); [reflexivity | exact Hb].
Qed.

Lemma bull_fixed (b : list ascii) :
  bull_rewrite b = b -> Contains b bull = false.
Proof.
  rewrite bull_rewrite_eq. apply replace_from_fixed. simpl. lia.
Qed.

(** Applying the rewrite twice is the same as applying it once exactly on
    the bodies that hold no &bull;. *)
Lemma bull_rewrite_idempotent_iff (b : list ascii) :
  bull_rewrite (bull_rewrite b) = bull_rewrite b <-> Contains b bull = false.
Proof.
  split.
  - intros Hfix. apply bull_fixed in Hfix.
    destruct (Contains b bull) eqn:Hb; [|reflexivity].
    apply bull_present in Hb. congruence.
  - intros Hb. now rewrite !(bull_absent b Hb).
Qed.

(** C2 (as amended): the rewrite is scoped, a body with no occurrence of
    the literal string &bull; is left unchanged byte for byte; and the
    rewrite applied twice equals the rewrite applied once exactly on those
    bodies (on a body that holds &bull; the second pass wraps the entity
    again). *)
Theorem bull_rewrite_scoped (b : list ascii) :
  (bull_rewrite (bull_rewrite b) = bull_rewrite b <-> Contains b bull = false)
  /\ (Contains b bull = false -> bull_rewrite b = b).
Proof.
  split; [apply bull_rewrite_idempotent_iff | apply bull_absent].
Qed.

Lemma bull_rewrite_scoped_witness :
  bull_rewrite (bytes_of "<title>A and B</title>")
  = bytes_of "<title>A and B</title>".
Proof.
  exact (proj2 (bull_rewrite_scoped (bytes_of "<title>A and B</title>"))
           eq_refl).
Defined.

(** C2 (as stated) fails: on the body A&bull;B the second pass changes the
    text again. *)
Lemma bull_rewrite_twice :
  exists b : list ascii,
    b = bytes_of "A&bull;B"
    /\ bull_rewrite b = bytes_of "A<![CDATA[&bull;]]>B"
    /\ bull_rewrite (bull_rewrite b)
       = bytes_of "A<![CDATA[<![CDATA[&bull;]]>]]>B"
    /\ bull_rewrite (bull_rewrite b) <> bull_rewrite b.
Proof.
  eexists. split; [reflexivity|]. repeat split. discriminate.
Qed.

Lemma bull_cdata_parts : bull_cdata = cdata_open ++ bull ++ cdata_close.
Proof. reflexivity. Qed.

(** The wrapper holds one ampersand, the one of the entity. *)
Lemma cdata_split (l l2 : list ascii) :
  bull_cdata = l ++ "&"%char :: l2 ->
  l = cdata_open /\ l2 = bytes_of "bull;]]>".
Proof.
  intros Heq. cbv in Heq.
  do 19 (destruct l as [|? l];
    [ cbn in Heq;
      first [ discriminate Heq | (injection Heq as <-; split; reflexivity) ]
    | cbn in Heq; first [ discriminate Heq | injection Heq as <- Heq ] ]).
Qed.

Lemma bull_suffix (l l2 : list ascii) (c : ascii) :
  bull = l ++ c :: l2 -> c <> "<"%char.
Proof.
  intros Heq ->.
  assert (Hin : In "<"%char bull) by (rewrite Heq; apply in_elt).
  cbv in Hin. intuition discriminate.
Qed.

Lemma cdata_wrapped_plain (t : list ascii) :
  Contains t bull = false -> Spec.cdata_wrapped t.
Proof.
  intros Hfree a b Heq.
  assert (Hc : Contains t bull = true) by (apply Contains_occurs; eauto).
  congruence.
Qed.

(** A text without the entity, a wrapper, and a text whose entities are
    wrapped: an instance of the entity cannot begin in the first text, and
    in the wrapper it can only be the wrapped one. *)
Lemma cdata_wrapped_step (x t : list ascii) :
  Contains x bull = false ->
  Spec.cdata_wrapped t -> Spec.cdata_wrapped (x ++ bull_cdata ++ t).
Proof.
  intros Hx Ht a b Heq.
  apply app_eq_app in Heq as [l [[Hxa Hrest] | [Hax Hrest]]].
  - exfalso.
    apply app_eq_app in Hrest as [l2 [[Hb Hc] | [Hl Hb]]].
    + destruct l2 as [|c l2].
      * rewrite app_nil_r in Hb. subst l.
        assert (Contains x bull = true)
          by (apply Contains_occurs; exists a, []; now rewrite app_nil_r).
        congruence.
      * destruct l as [|y l].
        -- cbv in Hb. injection Hb as <- _. cbv in Hc. discriminate Hc.
        -- injection Hc as <- _. now apply (bull_suffix (y :: l) l2 "<"%char).
    + subst l.
      assert (Contains x bull = true)
        by (apply Contains_occurs; exists a, l2; now rewrite Hxa).
      congruence.
  - apply app_eq_app in Hrest as [l2 [[Hc Hb] | [Hl Ht']]].
    + destruct l2 as [|c l2].
      * rewrite app_nil_r in Hc. cbn in Hb.
        destruct (Ht [] b (eq_sym Hb)) as (a' & b' & Ha' & _).
        destruct a'; discriminate Ha'.
      * assert (c = "&"%char) as -> by (now injection Hb as <- _).
        apply cdata_split in Hc as [-> ->].
        exists x, t. split; [exact Hax|].
        cbv in Hb. injection Hb as ->. reflexivity.
    + destruct (Ht l2 b Ht') as (a' & b' & -> & ->).
      exists (x ++ bull_cdata ++ a'), b'. split; [|reflexivity].
      rewrite Hax, Hl. now rewrite <- !app_assoc.
Qed.

(** After the rewrite no &bull; is left outside a CDATA section. *)
Lemma bull_rewrite_wrapped (body : list ascii) :
  Spec.cdata_wrapped (bull_rewrite body).
Proof.
  remember (length body) as n eqn:Hn. revert body Hn.
  induction n as [n IH] using lt_wf_ind. intros body Hn.
  destruct (Contains body bull) eqn:Hc.
  - rewrite bull_rewrite_eq.
    destruct (replace_from_first "&"%char bull_tail bull_cdata body Hc)
      as (a & r & Heq & Hfree & Hrep & _).
    rewrite Hrep. apply cdata_wrapped_step; [exact Hfree|].
    rewrite <- bull_rewrite_eq. apply (IH (length r)); [|reflexivity].
    rewrite Hn, Heq, !length_app. cbn. lia.
  - rewrite (bull_absent body Hc). now apply cdata_wrapped_plain.
Qed.

(** Each instance makes the text twelve bytes longer. *)
Lemma bull_rewrite_length (body : list ascii) :
  length (bull_rewrite body) = length body + 12 * Count body bull.
Proof.
  rewrite bull_rewrite_eq.
  pose proof (replace_from_length "&"%char bull_tail bull_cdata body) as Hlen.
  change (Count body bull) with (count_from ("&"%char :: bull_tail) 0 body).
  change (length ("&"%char :: bull_tail)) with 6 in Hlen.
  change (length bull_cdata) with 18 in Hlen. lia.
Qed.

End BullRewrite.

(** ** The response reader and the dispatcher *)

Section Dispatch.

Import Legacy.

Context `{strconv.Quoting} `{url.Parsing}.

Lemma string_of_bytes (b : list ascii) : bytes_of (string_of b) = b.
Proof. apply list_ascii_of_string_of_list_ascii. Qed.

Lemma readResponse_read (r : http.Response) (body : list ascii) :
  ioutil.ReadAll (http.Body r) = (body, None) ->
  readResponse r
  = ({| http_Response := r; Body := body |},
     if ((http.StatusCode r <? 200) || (299 <? http.StatusCode r))%Z
     then Some (Spec.status_error r body) else None).
Proof.
  intros Hread. unfold readResponse. rewrite Hread.
  now destruct ((http.StatusCode r <? 200) || (299 <? http.StatusCode r))%Z.
Qed.

Lemma readResponse_broken (r : http.Response) (body : list ascii) (e : error) :
  ioutil.ReadAll (http.Body r) = (body, Some e) ->
  readResponse r
  = ({| http_Response := r; Body := [] |},
     Some ("cannot read response body: " +:+ e)).
Proof. intros Hread. unfold readResponse. now rewrite Hread. Qed.

Lemma in_range_test (n : Z) :
  ((n <? 200) || (299 <? n))%Z = false <-> (200 <= n <= 299)%Z.
Proof. rewrite orb_false_iff, !Z.ltb_ge. lia. Qed.

(** C1: for a response whose body is read in full, the response reader
    takes the status codes 200..299 as success, and for every other status
    code it returns an error made of the request method, the resolved URL,
    the status code and the raw body text, byte for byte. *)
Theorem readResponse_classifies (r : http.Response) (body : list ascii) :
  ioutil.ReadAll (http.Body r) = (body, None) ->
  ((200 <= http.StatusCode r <= 299)%Z ->
   readResponse r = ({| http_Response := r; Body := body |}, None))
  /\ (~ (200 <= http.StatusCode r <= 299)%Z ->
      readResponse r
      = ({| http_Response := r; Body := body |},
         Some (http.Method (http.Request_ r) +:+ " "
               +:+ url.String (http.URL (http.Request_ r)) +:+ ": "
               +:+ strconv.Itoa (http.StatusCode r) +:+ " "
               +:+ string_of body))
      /\ bytes_of (string_of body) = body).
Proof.
  intros Hread. rewrite (readResponse_read r body Hread).
  destruct ((http.StatusCode r <? 200) || (299 <? http.StatusCode r))%Z eqn:Ht.
  - split.
    + intros Hr. apply in_range_test in Hr. congruence.
    + intros _. split; [reflexivity | apply string_of_bytes].
  - apply in_range_test in Ht. split; [reflexivity | tauto].
Qed.

(** What Do returns once the transport has delivered a response. *)
Lemma Do_received (c : Client) (req : http.Request) (v : option target)
    (r : http.Response) :
  client c req = inl r ->
  Do c req v
  = match readResponse r with
    | (response, Some e) => (Some response, Some e, v)
    | (response, None) =>
        match v with
        | Some t =>
            match unmarshal (bull_rewrite (Body response)) t with
            | (t', Some e) =>
                (Some response, Some ("cannot decode: " +:+ e), Some t')
            | (t', None) => (Some response, None, Some t')
            end
        | None => (Some response, None, None)
        end
    end.
Proof.
  intros Hc. unfold Do. rewrite Hc.
  destruct (readResponse r) as [response [e|]]; [reflexivity|].
  destruct v as [t|]; [|reflexivity].
  now destruct (unmarshal (bull_rewrite (Body response)) t) as [t' [e|]].
Qed.

(** Do hands back the response it received whatever happens next. *)
Lemma Do_keeps_response (c : Client) (req : http.Request) (v : option target)
    (r : http.Response) :
  client c req = inl r ->
  fst (fst (Do c req v)) = Some (fst (readResponse r)).
Proof.
  intros Hc. rewrite (Do_received c req v r Hc).
  destruct (readResponse r) as [response [e|]]; [reflexivity|].
  destruct v as [t|]; [|reflexivity].
  now destruct (unmarshal (bull_rewrite (Body response)) t) as [t' [e|]].
Qed.

(** C10: with a nil decode target Do decodes nothing; when the response
    has been read and its status is in 200..299, Do returns the response
    and a nil error whatever the body holds. *)
Theorem Do_nil_target (c : Client) (req : http.Request) (r : http.Response)
    (body : list ascii) :
  client c req = inl r ->
  ioutil.ReadAll (http.Body r) = (body, None) ->
  (200 <= http.StatusCode r <= 299)%Z ->
  Do c req None = (Some {| http_Response := r; Body := body |}, None, None).
Proof.
  intros Hc Hread Hr. rewrite (Do_received c req None r Hc).
  rewrite (readResponse_read r body Hread).
  apply in_range_test in Hr. now rewrite Hr.
Qed.

(** With a target, Do decodes the rewritten body and succeeds exactly
    when the decoder does. *)
Lemma Do_decodes (c : Client) (req : http.Request) (t : target)
    (r : http.Response) (body : list ascii) :
  client c req = inl r ->
  ioutil.ReadAll (http.Body r) = (body, None) ->
  (200 <= http.StatusCode r <= 299)%Z ->
  Do c req (Some t)
  = (Some {| http_Response := r; Body := body |},
     option_map (fun e => "cannot decode: " +:+ e)
       (snd (unmarshal (bull_rewrite body) t)),
     Some (fst (unmarshal (bull_rewrite body) t))).
Proof.
  intros Hc Hread Hr. rewrite (Do_received c req (Some t) r Hc).
  rewrite (readResponse_read r body Hread).
  apply in_range_test in Hr. rewrite Hr. cbn [Body].
  now destruct (unmarshal (bull_rewrite body) t) as [t' [e|]].
Qed.


(** post and delete give up the response whenever Do reports an error;
    query passes it on. *)
Lemma post_error (c : Client) (endpoint : string) (id : Z)
    (entry : option body) (err : error) :
  snd (post c endpoint id entry) = Some err ->
  fst (post c endpoint id entry) = None.
Proof.
  unfold post.
  destruct (NewRequest c "POST" (item_url endpoint id) entry) as [req|e];
    [|reflexivity].
  now destruct (Do c _ None) as [[resp [e|]] v].
Qed.

Lemma delete_error (c : Client) (endpoint : string) (id : Z) (err : error) :
  snd (delete c endpoint id) = Some err ->
  fst (delete c endpoint id) = None.
Proof.
  unfold delete.
  destruct (NewRequest c "DELETE" (item_url endpoint id) None) as [req|e];
    [|reflexivity].
  now destruct (Do c _ None) as [[resp [e|]] v].
Qed.

Lemma query_passes (c : Client) (u : string) (result : option target)
    (req : http.Request) :
  NewRequest c "GET" u None = inl req ->
  query c u result = Do c req result.
Proof.
  intros Hreq. unfold query. rewrite Hreq.
  now destruct (Do c req result) as [[resp [e|]] v].
Qed.

End Dispatch.

(** ** The request builder *)

Section Requests.

Import Legacy.

Context `{strconv.Quoting} `{url.Parsing}.

Lemma http_NewRequest_header (method urlStr body : string) (req : http.Request) :
  http.NewRequest method urlStr body = inl req -> http.Header req = ∅.
Proof.
  unfold http.NewRequest.
  destruct (negb (http.validMethod _)); [discriminate|].
  destruct (url.Parse urlStr); [|discriminate].
  intros [= <-]. reflexivity.
Qed.

Lemma http_NewRequest_body (method urlStr body : string) (req : http.Request) :
  http.NewRequest method urlStr body = inl req -> http.ReqBody req = body.
Proof.
  unfold http.NewRequest.
  destruct (negb (http.validMethod _)); [discriminate|].
  destruct (url.Parse urlStr); [|discriminate].
  intros [= <-]. reflexivity.
Qed.

Lemma eqb_empty (s : string) : String.eqb s "" = true <-> s = "".
Proof. apply String.eqb_eq. Qed.

(** The headers of a request that NewRequest has built. *)
Lemma NewRequest_header_map (c : Client) (method urlStr : string)
    (body : option body) (req : http.Request) :
  NewRequest c method urlStr body = inl req ->
  http.Header req
  = let h : gmap string (list string) :=
        if negb (String.eqb (UserAgent c) "")
        then url.Add ∅ "User-Agent" (UserAgent c) else ∅ in
    if negb (String.eqb (Username c) "")
    then url.Set_ h "Authorization"
           ("Basic " +:+ base64.EncodeToString
                           (Username c +:+ ":" +:+ Password c))
    else h.
Proof.
  unfold NewRequest.
  destruct (url.Parse urlStr) as [rel|e]; [|discriminate].
  destruct (form_values body) as [v|e]; [|discriminate].
  destruct (http.NewRequest method _ _) as [req0|e] eqn:Hreq; [|discriminate].
  apply http_NewRequest_header in Hreq.
  intros [= <-]. cbv zeta.
  destruct (negb (String.eqb (UserAgent c) ""));
    destruct (negb (String.eqb (Username c) "")); cbn; now rewrite Hreq.
Qed.

(** C9: on every request the legacy request builder returns, the
    Authorization header (HTTP Basic) is there if and only if the client's
    Username is not empty, whatever the Password is, and the User-Agent
    header is there if and only if the client's UserAgent is not empty. *)
Theorem NewRequest_headers (c : Client) (method urlStr : string)
    (body : option body) (req : http.Request) :
  NewRequest c method urlStr body = inl req ->
  (is_Some (http.Header req !! "Authorization") <-> Username c <> "")
  /\ (Username c <> "" ->
      http.Header req !! "Authorization"
      = Some ["Basic " +:+ base64.EncodeToString
                             (Username c +:+ ":" +:+ Password c)])
  /\ (is_Some (http.Header req !! "User-Agent") <-> UserAgent c <> "")
  /\ (UserAgent c <> "" ->
      http.Header req !! "User-Agent" = Some [UserAgent c]).
Proof.
  intros Hreq. rewrite (NewRequest_header_map c method urlStr body req Hreq).
  cbv zeta. unfold url.Set_, url.Add.
  destruct (String.eqb_spec (UserAgent c) "") as [Hua|Hua];
    destruct (String.eqb_spec (Username c) "") as [Hun|Hun]; cbn [negb];
    repeat split; intros;
    repeat first [ rewrite lookup_insert_eq | rewrite lookup_insert_ne by done
                 | rewrite lookup_empty ];
    try done; try (by eexists);
    match goal with
    | Hs : is_Some _ |- _ =>
        revert Hs;
        repeat first [ rewrite lookup_insert_ne by done | rewrite lookup_empty ];
        by intros [? ?]
    end.
Qed.

End Requests.

(** ** The client at work on the sample instance *)

Section Runs.

Import Legacy.

#[local] Existing Instance Sample.quoting.
#[local] Existing Instance Sample.parsing.
#[local] Existing Instance Sample.field_zero64.

Lemma readResponse_classifies_witness :
  readResponse (Sample.reply 404 "Not Found" Sample.search_request)
  = ({| http_Response := Sample.reply 404 "Not Found" Sample.search_request;
        Body := bytes_of "Not Found" |},
     Some "GET http://myanimelist.net/api/anime/search.xml?q=bebop: 404 Not Found").
Proof.
  refine (proj1 (proj2 (readResponse_classifies
                          (Sample.reply 404 "Not Found" Sample.search_request)
                          (bytes_of "Not Found") eq_refl) _)).
  cbn. lia.
Defined.

Lemma Do_nil_target_witness :
  Do (Sample.new_client (Sample.fixed_server 200 "Deleted & <gone") "u" "p" "a")
     Sample.search_request None
  = (Some {| http_Response :=
               Sample.reply 200 "Deleted & <gone" Sample.search_request;
             Body := bytes_of "Deleted & <gone" |}, None, None).
Proof.
  refine (Do_nil_target
            (Sample.new_client (Sample.fixed_server 200 "Deleted & <gone")
               "u" "p" "a")
            Sample.search_request
            (Sample.reply 200 "Deleted & <gone" Sample.search_request)
            (bytes_of "Deleted & <gone") eq_refl eq_refl _).
  cbn. lia.
Defined.

Lemma NewRequest_headers_witness :
  http.Header Sample.anonymous_request !! "Authorization" = None
  /\ http.Header Sample.anonymous_request !! "User-Agent" = Some ["TestAgent"].
Proof.
  pose proof (NewRequest_headers Sample.anonymous "GET" "api/anime/search.xml?q=bebop"
                None Sample.anonymous_request eq_refl) as (Hauth & _ & _ & Hagent).
  split.
  - destruct (http.Header Sample.anonymous_request !! "Authorization") eqn:Hl;
      [|reflexivity].
    exfalso. apply (proj1 Hauth); [eexists; reflexivity | reflexivity].
  - apply Hagent. discriminate.
Defined.

(** C4 (the code departs from it): a server answers 500 with the text
    boom.  Do returns the response it read together with the error, but
    Add, Update and Delete, which go through post and delete, return a nil
    response with that error. *)
Theorem Add_drops_response :
  let c := Sample.new_client (Sample.fixed_server 500 "boom")
             "TestUser" "TestPass" "TestAgent" in
  let s := Sample.anime_service c in
  (exists req : http.Request,
      NewRequest c "DELETE" (item_url deleteAnimeURL 55) None = inl req
      /\ Do c req None
         = (Some {| http_Response := Sample.reply 500 "boom" req;
                    Body := bytes_of "boom" |},
            Some "DELETE http://myanimelist.net/api/animelist/delete/55.xml: 500 boom",
            None))
  /\ Delete s 55
     = (None,
        Some "DELETE http://myanimelist.net/api/animelist/delete/55.xml: 500 boom")
  /\ Add s 55 (Sample.entry_with_status "watching")
     = (None,
        Some "POST http://myanimelist.net/api/animelist/add/55.xml: 500 boom")
  /\ Update s 55 (Sample.entry_with_status "onhold")
     = (None,
        Some "POST http://myanimelist.net/api/animelist/update/55.xml: 500 boom").
Proof.
  cbv zeta. split; [|repeat split].
  eexists. split; vm_compute; reflexivity.
Qed.

(** C5 (the code departs from it): the delete endpoint of the manga list
    is the one of the anime list, so the request for manga 55 is a DELETE
    of /api/animelist/delete/55.xml.  The server echoes the method and the
    URL it was asked for. *)
Theorem delete_manga_endpoint :
  let c := Sample.new_client Sample.echo_server
             "TestUser" "TestPass" "TestAgent" in
  item_url deleteMangaURL 55
  = "http://myanimelist.net/api/animelist/delete/55.xml"
  /\ option_map Body (fst (delete c deleteMangaURL 55))
     = Some (bytes_of "DELETE http://myanimelist.net/api/animelist/delete/55.xml")
  /\ snd (delete c deleteMangaURL 55) = None
  /\ option_map Body (fst (delete c deleteAnimeURL 55))
     = Some (bytes_of "DELETE http://myanimelist.net/api/animelist/delete/55.xml").
Proof. cbv zeta. repeat split. Qed.

(** C7 (the code departs from it): Add with an entry whose only set field
    is Status = watching.  The request has the content type
    application/x-www-form-urlencoded and a form with the single field
    data, but the value of data also holds the fields of the entry that
    have no omitempty option.  The server sends back the content type and
    the body it received. *)
Theorem Add_watching_body :
  let c := Sample.new_client Sample.mirror_server
             "TestUser" "TestPass" "TestAgent" in
  let xml :=
    "<entry><episode>0</episode><status>watching</status><score>0</score><times_rewatched>0</times_rewatched><enable_rewatching>0</enable_rewatching><comments></comments></entry>" in
  marshal_AnimeEntry (Sample.entry_with_status "watching") = xml
  /\ (exists req : http.Request,
        NewRequest c "POST" (item_url addAnimeURL 55)
          (Some (entry_body (Sample.entry_with_status "watching"))) = inl req
        /\ http.ReqBody req = "data=" +:+ url.QueryEscape xml
        /\ map_to_list (url.ParseQuery (http.ReqBody req)) = [("data", [xml])])
  /\ option_map (fun r => string_of (Body r))
       (fst (Add (Sample.anime_service c) 55 (Sample.entry_with_status "watching")))
     = Some ("application/x-www-form-urlencoded data=" +:+ url.QueryEscape xml)
  /\ xml <> "<entry><status>watching</status></entry>".
Proof.
  cbv zeta. split; [reflexivity|]. split; [|split; [reflexivity | discriminate]].
  eexists. split; [vm_compute; reflexivity|]. repeat split.
Qed.



(** When the connection breaks while the body is read, the status code is
    not looked at: Do returns the response without a body and the read
    error. *)
Lemma Do_broken_body :
  Do (Sample.new_client (Sample.broken_server 200) "u" "p" "a")
     Sample.search_request None
  = (Some {| http_Response :=
               {| http.StatusCode := 200;
                  http.Body := {| http.data := [];
                                  http.failure := Some "unexpected EOF" |};
                  http.Request_ := Sample.search_request |};
             Body := [] |},
     Some "cannot read response body: unexpected EOF", None).
Proof. reflexivity. Qed.

End Runs.

(** ** Entries on the wire *)

Section Entries.

Import Legacy.

Context {StatusType float64 : Type}.
Context `{xml.Field StatusType} `{xml.Field float64}.

(** Whatever its fields hold, an entry is written with its episode
    element first. *)
Lemma marshal_AnimeEntry_episode (e : @AnimeEntry StatusType float64) :
  exists rest : string,
    marshal_AnimeEntry e = "<entry><episode>" +:+ rest.
Proof. eexists. unfold marshal_AnimeEntry, xml.element. cbn. reflexivity. Qed.

Lemma marshal_AnimeEntry_not_minimal (e : @AnimeEntry StatusType float64) :
  marshal_AnimeEntry e <> "<entry><status>watching</status></entry>".
Proof.
  destruct (marshal_AnimeEntry_episode e) as [rest ->]. cbn. discriminate.
Qed.

End Entries.

Section Endpoints.

Import Legacy.

Context `{strconv.Quoting} `{url.Parsing}.

(** For every client and every id, deleting a manga is the same call as
    deleting the anime with that id. *)
Lemma delete_manga_is_delete_anime (c : Client) (id : Z) :
  delete c deleteMangaURL id = delete c deleteAnimeURL id
  /\ item_url deleteMangaURL id
     = "http://myanimelist.net/api/animelist/delete/" +:+ strconv.Itoa id
       +:+ ".xml".
Proof. split; reflexivity. Qed.

End Endpoints.

(** ** Decimal texts and strconv.Atoi *)

Section Decimal.

Import Spec.

Context `{strconv.Quoting}.

Lemma digit_cases (d : Z) :
  (0 <= d <= 9)%Z ->
  d = 0%Z \/ d = 1%Z \/ d = 2%Z \/ d = 3%Z \/ d = 4%Z \/ d = 5%Z \/ d = 6%Z
  \/ d = 7%Z \/ d = 8%Z \/ d = 9%Z.
Proof. lia. Qed.

Ltac each_digit d Hd :=
  let H := fresh in
  pose proof (digit_cases d Hd) as H;
  repeat (destruct H as [H|H]; [subst d|]); try subst d.

Lemma digit_val_char (d : Z) :
  (0 <= d <= 9)%Z -> strconv.digit_val (strconv.digit_char d) = Some d.
Proof. intros Hd. each_digit d Hd; reflexivity. Qed.

Lemma digit_char_sign (d : Z) :
  (0 <= d <= 9)%Z ->
  Ascii.eqb (strconv.digit_char d) "-" = false
  /\ Ascii.eqb (strconv.digit_char d) "+" = false.
Proof. intros Hd. each_digit d Hd; split; reflexivity. Qed.

Lemma digit_val_inv (c : ascii) (d : Z) :
  strconv.digit_val c = Some d ->
  (0 <= d <= 9)%Z /\ c = strconv.digit_char d.
Proof.
  unfold strconv.digit_val, strconv.digit_char.
  destruct ((48 <=? Z.of_N (N_of_ascii c)) && (Z.of_N (N_of_ascii c) <=? 57))%Z
    eqn:Hr; [|discriminate].
  intros [= <-]. apply andb_true_iff in Hr as [Hlo Hhi].
  apply Z.leb_le in Hlo, Hhi. split; [lia|].
  replace (48 + (Z.of_N (N_of_ascii c) - 48))%Z with (Z.of_N (N_of_ascii c))
    by lia.
  now rewrite N2Z.id, ascii_N_embedding.
Qed.

Lemma sign_not_digit (c : ascii) (d : Z) :
  strconv.digit_val c = Some d ->
  Ascii.eqb c "-" = false /\ Ascii.eqb c "+" = false.
Proof.
  intros Hc. apply digit_val_inv in Hc as [Hd ->]. now apply digit_char_sign.
Qed.

(** The digit loop computes the positional value. *)
Lemma parse_digits_of (s : string) (n : Z) :
  digits_of s n ->
  forall a : Z,
    strconv.parse_digits s a
    = Some (a * 10 ^ Z.of_nat (String.length s) + n)%Z.
Proof.
  induction 1 as [d Hd | d s n Hd Hs IH]; intros a; cbn [strconv.parse_digits].
  - rewrite digit_val_char by exact Hd. cbn. f_equal; lia.
  - rewrite digit_val_char by exact Hd. rewrite IH. f_equal.
    cbn [String.length]. rewrite Nat2Z.inj_succ, Z.pow_succ_r by lia. ring.
Qed.

Lemma parse_digits_inv (s : string) :
  forall a m : Z,
    strconv.parse_digits s a = Some m ->
    (s = "" /\ m = a)
    \/ exists n : Z,
         digits_of s n /\ m = (a * 10 ^ Z.of_nat (String.length s) + n)%Z.
Proof.
  induction s as [|c s IH]; intros a m; cbn [strconv.parse_digits].
  - intros [= <-]. now left.
  - destruct (strconv.digit_val c) as [d|] eqn:Hc; [|discriminate].
    apply digit_val_inv in Hc as [Hd ->]. intros Hm. right.
    destruct (IH _ _ Hm) as [[-> ->] | (n & Hn & ->)].
    + exists d. split; [now constructor | cbn; lia].
    + exists (d * 10 ^ Z.of_nat (String.length s) + n)%Z.
      split; [now constructor|].
      cbn [String.length]. rewrite Nat2Z.inj_succ, Z.pow_succ_r by lia. ring.
Qed.

Lemma digits_of_nonempty (n : Z) : ~ digits_of "" n.
Proof. inversion 1. Qed.

Lemma digits_of_head (c : ascii) (s : string) (n : Z) :
  digits_of (String c s) n -> exists d : Z, strconv.digit_val c = Some d.
Proof.
  inversion 1; subst; eexists; apply digit_val_char; assumption.
Qed.

Lemma digits_of_parse (s : string) (n : Z) :
  digits_of s n -> strconv.parse_digits s 0 = Some n.
Proof. intros Hs. rewrite (parse_digits_of s n Hs). f_equal; lia. Qed.

Lemma parse_digits_digits (s : string) (m : Z) :
  s <> "" -> strconv.parse_digits s 0 = Some m -> digits_of s m.
Proof.
  intros Hne Hm. destruct (parse_digits_inv s 0 m Hm) as [[-> _] | (n & Hn & ->)].
  - contradiction.
  - exact Hn.
Qed.

(** A decimal text has one value. *)
Lemma decimal_of_value (s : string) (n : Z) :
  decimal_of s n ->
  match s with
  | "" => False
  | String c rest =>
      if Ascii.eqb c "-" then exists m, strconv.parse_digits rest 0 = Some m
                                         /\ rest <> "" /\ n = (- m)%Z
      else if Ascii.eqb c "+" then strconv.parse_digits rest 0 = Some n
                                   /\ rest <> ""
      else strconv.parse_digits s 0 = Some n
  end.
Proof.
  intros [s' n' Hs | s' n' Hs | s' n' Hs].
  - destruct s' as [|c rest]; [now apply digits_of_nonempty in Hs|].
    destruct (digits_of_head _ _ _ Hs) as [d Hd].
    destruct (sign_not_digit _ _ Hd) as [-> ->].
    now apply digits_of_parse.
  - cbn. split; [now apply digits_of_parse|].
    intros ->. now apply digits_of_nonempty in Hs.
  - cbn. exists n'. split; [now apply digits_of_parse|]. split; [|reflexivity].
    intros ->. now apply digits_of_nonempty in Hs.
Qed.

(** strconv.Atoi returns a value without an error exactly on the decimal
    texts whose value is an int; in every other case it returns an
    error. *)
Lemma Atoi_spec (s : string) :
  match strconv.Atoi s with
  | (n, None) => decimal_of s n /\ is_int n
  | (_, Some _) => forall n : Z, decimal_of s n -> ~ is_int n
  end.
Proof.
  unfold strconv.Atoi, is_int.
  destruct s as [|c rest].
  { intros n Hn. now apply decimal_of_value in Hn. }
  assert (Hrange : forall (m : Z),
             decimal_of (String c rest) m ->
             match (if (m <? strconv.minInt)%Z
                    then (strconv.minInt,
                          Some (strconv.NumError "Atoi" (String c rest)
                                  "value out of range"))
                    else if (strconv.maxInt <? m)%Z
                         then (strconv.maxInt,
                               Some (strconv.NumError "Atoi" (String c rest)
                                       "value out of range"))
                         else (m, None)) with
             | (n, None) =>
                 decimal_of (String c rest) n
                 /\ (strconv.minInt <= n <= strconv.maxInt)%Z
             | (_, Some _) =>
                 forall n : Z, decimal_of (String c rest) n ->
                               ~ (strconv.minInt <= n <= strconv.maxInt)%Z
             end).
  { intros m Hm.
    assert (Hfun : forall n, decimal_of (String c rest) n -> n = m).
    { intros n Hn. apply decimal_of_value in Hn, Hm.
      destruct (Ascii.eqb c "-").
      - destruct Hn as (x & Hx & _ & ->), Hm as (y & Hy & _ & ->). congruence.
      - destruct (Ascii.eqb c "+").
        + destruct Hn as [Hn _], Hm as [Hm _]. congruence.
        + congruence. }
    destruct (m <? strconv.minInt)%Z eqn:Hlo.
    - apply Z.ltb_lt in Hlo. intros n Hn. rewrite (Hfun n Hn). lia.
    - apply Z.ltb_ge in Hlo. destruct (strconv.maxInt <? m)%Z eqn:Hhi.
      + apply Z.ltb_lt in Hhi. intros n Hn. rewrite (Hfun n Hn). lia.
      + apply Z.ltb_ge in Hhi. split; [exact Hm | lia]. }
  destruct (Ascii.eqb c "-") eqn:Hminus; cbn [orb].
  - apply Ascii.eqb_eq in Hminus as ->.
    destruct rest as [|c' rest'].
    { intros n Hn. apply decimal_of_value in Hn. cbn in Hn.
      destruct Hn as (m & _ & Hne & _). contradiction. }
    destruct (strconv.parse_digits (String c' rest') 0) as [un|] eqn:Hun.
    + apply Hrange. apply decimal_minus.
      apply parse_digits_digits; [discriminate | exact Hun].
    + intros n Hn. apply decimal_of_value in Hn. cbn [Ascii.eqb] in Hn.
      change (Ascii.eqb "-" "-") with true in Hn. cbn iota in Hn.
      destruct Hn as (m & Hm & _). congruence.
  - destruct (Ascii.eqb c "+") eqn:Hplus.
    + apply Ascii.eqb_eq in Hplus as ->.
      destruct rest as [|c' rest'].
      { intros n Hn. apply decimal_of_value in Hn. cbn in Hn.
        destruct Hn as [_ Hne]. contradiction. }
      destruct (strconv.parse_digits (String c' rest') 0) as [un|] eqn:Hun.
      * apply Hrange. apply decimal_plus.
        apply parse_digits_digits; [discriminate | exact Hun].
      * intros n Hn. apply decimal_of_value in Hn.
        change (Ascii.eqb "+" "-") with false in Hn.
        change (Ascii.eqb "+" "+") with true in Hn. cbn iota in Hn.
        destruct Hn as [Hn _]. congruence.
    + destruct (strconv.parse_digits (String c rest) 0) as [un|] eqn:Hun.
      * apply Hrange. apply decimal_plain.
        apply parse_digits_digits; [discriminate | exact Hun].
      * intros n Hn. apply decimal_of_value in Hn.
        rewrite Hminus, Hplus in Hn. congruence.
Qed.

Lemma Atoi_decimal (s : string) (n : Z) :
  decimal_of s n -> is_int n -> strconv.Atoi s = (n, None).
Proof.
  intros Hs Hn. pose proof (Atoi_spec s) as Hspec.
  destruct (strconv.Atoi s) as [m [e|]].
  - now apply Hspec in Hs.
  - destruct Hspec as [Hm _]. f_equal.
    apply decimal_of_value in Hs, Hm. destruct s as [|c rest]; [contradiction|].
    destruct (Ascii.eqb c "-").
    + destruct Hs as (x & Hx & _ & ->), Hm as (y & Hy & _ & ->). congruence.
    + destruct (Ascii.eqb c "+").
      * destruct Hs as [Hs _], Hm as [Hm _]. congruence.
      * congruence.
Qed.

Lemma Atoi_fails (s : string) :
  (forall n : Z, decimal_of s n -> ~ is_int n) ->
  exists e : error, snd (strconv.Atoi s) = Some e.
Proof.
  intros Hs. pose proof (Atoi_spec s) as Hspec.
  destruct (strconv.Atoi s) as [m [e|]].
  - now exists e.
  - destruct Hspec as [Hm Hr]. now apply Hs in Hm.
Qed.

Lemma append_cons (c : ascii) (s t : string) :
  String c s +:+ t = String c (s +:+ t).
Proof. reflexivity. Qed.

Lemma append_nil_r (s : string) : s +:+ "" = s.
Proof.
  induction s as [|c s IH]; [reflexivity|]. now rewrite append_cons, IH.
Qed.

Lemma append_length (s t : string) :
  String.length (s +:+ t) = (String.length s + String.length t)%nat.
Proof.
  induction s as [|c s IH]; [reflexivity|].
  rewrite append_cons. cbn [String.length]. now rewrite IH.
Qed.

Lemma digits_of_snoc (s : string) (n d : Z) :
  digits_of s n -> (0 <= d <= 9)%Z ->
  digits_of (s +:+ String (strconv.digit_char d) "") (n * 10 + d)%Z.
Proof.
  intros Hs Hd. induction Hs as [c Hc | c s n Hc Hs IH].
  - change (digits_of (String (strconv.digit_char c)
                          (String (strconv.digit_char d) "")) (c * 10 + d)%Z).
    replace (c * 10 + d)%Z with (c * 10 ^ Z.of_nat (String.length (String (strconv.digit_char d) "")) + d)%Z
      by (cbn; lia).
    apply digits_more; [exact Hc | now apply digits_one].
  - rewrite append_cons.
    replace ((c * 10 ^ Z.of_nat (String.length s) + n) * 10 + d)%Z
      with (c * 10 ^ Z.of_nat (String.length (s +:+ String (strconv.digit_char d) ""))
            + (n * 10 + d))%Z.
    + now apply digits_more.
    + rewrite append_length. cbn [String.length].
      rewrite Nat2Z.inj_add, Z.pow_add_r by lia. cbn. lia.
Qed.

Lemma append_assoc' (s t u : string) : (s +:+ t) +:+ u = s +:+ (t +:+ u).
Proof.
  induction s as [|c s IH]; [reflexivity|]. now rewrite !append_cons, IH.
Qed.

Lemma utoa_digits (f : nat) :
  forall (n : Z) (acc : string),
    (0 <= n < 2 ^ Z.of_nat (S f))%Z ->
    exists ds : string,
      strconv.utoa (S f) n acc = ds +:+ acc /\ digits_of ds n.
Proof.
  induction f as [|f IH]; intros n acc Hn.
  - cbn [strconv.utoa]. assert (Hlt : (n <? 10)%Z = true) by (apply Z.ltb_lt; cbn in Hn; lia).
    rewrite Hlt. exists (String (strconv.digit_char (n mod 10)) "").
    split; [reflexivity|].
    rewrite Z.mod_small by (cbn in Hn; lia). apply digits_one. cbn in Hn; lia.
  - remember (S f) as f' eqn:Hf. cbn [strconv.utoa].
    destruct (n <? 10)%Z eqn:Hlt.
    + apply Z.ltb_lt in Hlt. exists (String (strconv.digit_char (n mod 10)) "").
      split; [reflexivity|]. rewrite Z.mod_small by lia. apply digits_one. lia.
    + apply Z.ltb_ge in Hlt. subst f'.
      destruct (IH (n / 10)%Z (String (strconv.digit_char (n mod 10)) acc))
        as (ds & Heq & Hds).
      { split; [apply Z.div_pos; lia|].
        apply Z.div_lt_upper_bound; [lia|].
        rewrite (Nat2Z.inj_succ (S f)), Z.pow_succ_r in Hn by lia. lia. }
      exists (ds +:+ String (strconv.digit_char (n mod 10)) ""). split.
      * rewrite Heq. now rewrite append_assoc'.
      * replace n with (n / 10 * 10 + n mod 10)%Z at 2
          by (pose proof (Z.div_mod n 10); lia).
        apply digits_of_snoc; [exact Hds|].
        pose proof (Z.mod_pos_bound n 10). lia.
Qed.

Lemma FormatUint_digits (n : Z) : (0 <= n)%Z -> digits_of (strconv.FormatUint n) n.
Proof.
  intros Hn. unfold strconv.FormatUint.
  destruct (utoa_digits (Z.to_nat (Z.log2 n)) n "") as (ds & Heq & Hds).
  - split; [exact Hn|]. rewrite Nat2Z.inj_succ, Z2Nat.id by apply Z.log2_nonneg.
    destruct (Z.eq_dec n 0%Z) as [->|Hne]; [reflexivity|].
    apply Z.log2_spec. lia.
  - rewrite Heq. clear Heq. 
    now rewrite append_nil_r.
Qed.

Lemma Itoa_decimal (n : Z) : decimal_of (strconv.Itoa n) n.
Proof.
  unfold strconv.Itoa. destruct (n <? 0)%Z eqn:Hneg.
  - apply Z.ltb_lt in Hneg. replace n with (- - n)%Z at 2 by lia.
    apply (decimal_minus (strconv.FormatUint (- n))). apply FormatUint_digits. lia.
  - apply Z.ltb_ge in Hneg. apply decimal_plain. now apply FormatUint_digits.
Qed.

(** What Itoa writes, Atoi reads back. *)
Lemma Atoi_Itoa (n : Z) : is_int n -> strconv.Atoi (strconv.Itoa n) = (n, None).
Proof. intros Hn. apply Atoi_decimal; [apply Itoa_decimal | exact Hn]. Qed.

End Decimal.

(** ** Pagination *)

Section Pagination.

Import Spec Current.

Context `{strconv.Quoting} `{url.Parsing}.

Lemma parseOffset_parsed (urlStr : string) (u : url.URL) :
  url.Parse urlStr = inl u ->
  parseOffset urlStr
  = match strconv.Atoi (url.Get (url.Query u) "offset") with
    | (_, Some e) => (0%Z, Some ("parsing offset: " +:+ e))
    | (offset, None) => (offset, None)
    end.
Proof.
  intros Hu. unfold parseOffset. rewrite Hu.
  now destruct (strconv.Atoi _) as [offset [e|]].
Qed.

Lemma parseOffset_decimal (urlStr : string) (u : url.URL) (n : Z) :
  url.Parse urlStr = inl u ->
  decimal_of (url.Get (url.Query u) "offset") n ->
  is_int n ->
  parseOffset urlStr = (n, None).
Proof.
  intros Hu Hdec Hint. rewrite (parseOffset_parsed urlStr u Hu).
  now rewrite (Atoi_decimal _ n Hdec Hint).
Qed.

Lemma parseOffset_unparsed (urlStr : string) (e : error) :
  url.Parse urlStr = inr e ->
  parseOffset urlStr
  = (0%Z, Some ("parsing URL " +:+ strconv.Quote urlStr +:+ ": " +:+ e)).
Proof. intros Hu. unfold parseOffset. now rewrite Hu. Qed.

Lemma parseOffset_not_decimal (urlStr : string) (u : url.URL) :
  url.Parse urlStr = inl u ->
  (forall n : Z, decimal_of (url.Get (url.Query u) "offset") n -> ~ is_int n) ->
  exists err : error, parseOffset urlStr = (0%Z, Some err).
Proof.
  intros Hu Hnot. rewrite (parseOffset_parsed urlStr u Hu).
  destruct (Atoi_fails _ Hnot) as [e He].
  destruct (strconv.Atoi _) as [offset [e'|]]; [eauto | discriminate].
Qed.

Lemma Get_missing (v : gmap string (list string)) (key : string) :
  v !! key = None -> url.Get v key = "".
Proof. intros Hk. unfold url.Get. now rewrite Hk. Qed.

Lemma empty_not_decimal (n : Z) : ~ decimal_of "" n.
Proof. intros Hn. now apply decimal_of_value in Hn. Qed.

(** C6: for a page URL whose offset query parameter is a decimal integer
    (of type int), parseOffset returns that integer; for a URL that cannot
    be parsed it fails with an error; and for a URL that parses and whose
    offset parameter is missing or is not a decimal integer it fails with
    an error. *)
Theorem parseOffset_spec (urlStr : string) :
  (forall (u : url.URL) (n : Z),
      url.Parse urlStr = inl u ->
      decimal_of (url.Get (url.Query u) "offset") n ->
      is_int n ->
      parseOffset urlStr = (n, None))
  /\ (forall e : error,
         url.Parse urlStr = inr e ->
         exists err : error, parseOffset urlStr = (0%Z, Some err))
  /\ (forall u : url.URL,
         url.Parse urlStr = inl u ->
         url.Query u !! "offset" = None
         \/ (forall n : Z, ~ decimal_of (url.Get (url.Query u) "offset") n) ->
         exists err : error, parseOffset urlStr = (0%Z, Some err)).
Proof.
  split; [|split].
  - intros u n. apply parseOffset_decimal.
  - intros e He. rewrite (parseOffset_unparsed urlStr e He). eauto.
  - intros u Hu Hbad. apply (parseOffset_not_decimal urlStr u Hu).
    intros n Hn _. destruct Hbad as [Hmiss | Hnot].
    + rewrite (Get_missing _ _ Hmiss) in Hn. now apply empty_not_decimal in Hn.
    + now apply Hnot in Hn.
Qed.

(** A value out of the range of int is an error as well. *)
Lemma parseOffset_out_of_range (urlStr : string) (u : url.URL) (n : Z) :
  url.Parse urlStr = inl u ->
  decimal_of (url.Get (url.Query u) "offset") n ->
  ~ is_int n ->
  exists err : error, parseOffset urlStr = (0%Z, Some err).
Proof.
  intros Hu Hdec Hout. apply (parseOffset_not_decimal urlStr u Hu).
  intros m Hm Hint. pose proof (Atoi_decimal _ m Hm Hint) as Ha.
  pose proof (Atoi_spec (url.Get (url.Query u) "offset")) as Hs.
  rewrite Ha in Hs. destruct Hs as [Hm' _].
  apply decimal_of_value in Hdec, Hm.
  destruct (url.Get (url.Query u) "offset") as [|c rest]; [contradiction|].
  destruct (Ascii.eqb c "-").
  - destruct Hdec as (x & Hx & _ & ->), Hm as (y & Hy & _ & ->).
    apply Hout. congruence.
  - destruct (Ascii.eqb c "+").
    + destruct Hdec as [Hd _], Hm as [Hm _]. apply Hout. congruence.
    + apply Hout. congruence.
Qed.

(** *** List *)

Variable Anime : Type.
Variable Received : Type.
Variable NewRequest : string -> string -> http.Request + error.
Variable Do :
  http.Request ->
  (Response Received * animeList Anime) + (option (Response Received) * error).

Lemma previous_step_offset (resp : Response Received) (paging : Paging) (p : Z) :
  page_offset (Previous paging) (PrevOffset resp) p ->
  previous_step resp paging
  = inl {| received := received resp; NextOffset := NextOffset resp;
           PrevOffset := p |}.
Proof.
  unfold previous_step.
  intros [[Hempty ->] | (Hne & u & Hu & Hdec & Hint)].
  - rewrite Hempty. cbn. now destruct resp.
  - apply String.eqb_neq in Hne. rewrite Hne. cbn [negb].
    now rewrite (parseOffset_decimal _ u p Hu Hdec Hint).
Qed.

Lemma next_step_offset (resp : Response Received) (paging : Paging) (n : Z) :
  page_offset (Next paging) (NextOffset resp) n ->
  next_step resp paging
  = inl {| received := received resp; NextOffset := n;
           PrevOffset := PrevOffset resp |}.
Proof.
  unfold next_step.
  intros [[Hempty ->] | (Hne & u & Hu & Hdec & Hint)].
  - rewrite Hempty. cbn. now destruct resp.
  - apply String.eqb_neq in Hne. rewrite Hne. cbn [negb].
    now rewrite (parseOffset_decimal _ u n Hu Hdec Hint).
Qed.


End Pagination.

(** ** Pagination on the sample instance *)

Section PagedRuns.

Import Spec Current.

#[local] Existing Instance Sample.quoting.
#[local] Existing Instance Sample.parsing.

Lemma twelve : decimal_of "12" 12.
Proof.
  apply decimal_plain.
  exact (digits_more 1 "2" 2 ltac:(lia) (digits_one 2 ltac:(lia))).
Defined.

Lemma five : decimal_of "5" 5.
Proof. apply decimal_plain. exact (digits_one 5 ltac:(lia)). Defined.

Lemma small_int (n : Z) : (0 <= n <= 1000)%Z -> is_int n.
Proof. unfold is_int, strconv.minInt, strconv.maxInt. lia. Defined.

Lemma parseOffset_spec_witness :
  parseOffset "https://api.myanimelist.net/v2/anime?offset=12" = (12%Z, None).
Proof.
  refine (proj1 (parseOffset_spec
                   "https://api.myanimelist.net/v2/anime?offset=12")
            (Sample.must_parse "https://api.myanimelist.net/v2/anime?offset=12")
            12%Z eq_refl twelve (small_int 12 _)).
  lia.
Defined.


End PagedRuns.

(** ** Form values on the wire: Encode and ParseQuery *)

Section Forms.

Import Notions.

Context `{strconv.Quoting}.

Lemma append_String (c : ascii) (s t : string) : String c s +:+ t = String c (s +:+ t).
Proof. reflexivity. Qed.

Lemma QueryUnescape_step (c : ascii) (s r : string) :
  url.QueryUnescape (url.QueryEscape s) = inl r ->
  url.QueryUnescape (url.QueryEscape (String c s)) = inl (String c r).
Proof.
  intros Hs.
  destruct c as [[] [] [] [] [] [] [] []]; simpl; rewrite Hs; reflexivity.
Qed.

Lemma QueryUnescape_QueryEscape (s : string) :
  url.QueryUnescape (url.QueryEscape s) = inl s.
Proof.
  induction s as [|c s IH]; [reflexivity|]. now apply QueryUnescape_step.
Qed.

Lemma QueryEscape_has_byte (x c : ascii) (s : string) :
  x = "&"%char \/ x = ";"%char \/ x = "="%char ->
  url.has_byte x (url.QueryEscape (String c s)) = url.has_byte x (url.QueryEscape s).
Proof.
  intros [-> | [-> | ->]];
    destruct c as [[] [] [] [] [] [] [] []]; reflexivity.
Qed.

Lemma QueryEscape_clean (x : ascii) (s : string) :
  x = "&"%char \/ x = ";"%char \/ x = "="%char ->
  url.has_byte x (url.QueryEscape s) = false.
Proof.
  intros Hx. induction s as [|c s IH]; [reflexivity|].
  now rewrite QueryEscape_has_byte.
Qed.

Lemma has_byte_append (x : ascii) (s t : string) :
  url.has_byte x (s +:+ t) = url.has_byte x s || url.has_byte x t.
Proof.
  induction s as [|c s IH]; [reflexivity|].
  rewrite append_String. cbn [url.has_byte]. now rewrite IH, orb_assoc.
Qed.

Lemma Split_nonempty (sep : ascii) (s : string) : url.Split sep s <> [].
Proof.
  destruct s as [|c s]; cbn; [discriminate|].
  destruct (Ascii.eqb c sep); [discriminate|].
  destruct (url.Split sep s); discriminate.
Qed.

Lemma Split_clean (sep : ascii) (s : string) :
  url.has_byte sep s = false -> url.Split sep s = [s].
Proof.
  induction s as [|c s IH]; [reflexivity|]. cbn [url.has_byte url.Split].
  intros Hs. apply orb_false_iff in Hs as [Hc Hs].
  rewrite Hc, (IH Hs). reflexivity.
Qed.

Lemma Split_append (sep : ascii) (s t : string) :
  url.has_byte sep s = false ->
  url.Split sep (s +:+ String sep t) = s :: url.Split sep t.
Proof.
  induction s as [|c s IH]; intros Hs.
  - change ("" +:+ String sep t) with (String sep t). cbn [url.Split].
    now rewrite Ascii.eqb_refl.
  - rewrite append_String. cbn [url.has_byte] in Hs.
    apply orb_false_iff in Hs as [Hc Hs]. cbn [url.Split].
    rewrite Hc, (IH Hs). reflexivity.
Qed.

Lemma Split_concat (l : list string) :
  l <> [] ->
  Forall (fun x => url.has_byte "&" x = false) l ->
  url.Split "&" (String.concat "&" l) = l.
Proof.
  induction l as [|x l IH]; [contradiction|]. intros _ Hl.
  inversion Hl as [|? ? Hx Hl']; subst.
  destruct l as [|y l].
  - cbn [String.concat]. now apply Split_clean.
  - change (String.concat "&" (x :: y :: l))
      with (x +:+ String "&" (String.concat "&" (y :: l))).
    rewrite Split_append by exact Hx. f_equal. apply IH; [discriminate | exact Hl'].
Qed.

Lemma Cut_append (sep : ascii) (s t : string) :
  url.has_byte sep s = false -> url.Cut sep (s +:+ String sep t) = (s, t).
Proof.
  induction s as [|c s IH]; intros Hs.
  - change ("" +:+ String sep t) with (String sep t). cbn [url.Cut].
    now rewrite Ascii.eqb_refl.
  - rewrite append_String. cbn [url.has_byte] in Hs.
    apply orb_false_iff in Hs as [Hc Hs]. cbn [url.Cut].
    rewrite Hc, (IH Hs). reflexivity.
Qed.

Lemma encode_pair_clean (x : ascii) (k v : string) :
  x = "&"%char \/ x = ";"%char ->
  url.has_byte x (encode_pair k v) = false.
Proof.
  intros Hx. unfold encode_pair. rewrite !has_byte_append.
  rewrite !QueryEscape_clean by tauto.
  destruct Hx as [-> | ->]; reflexivity.
Qed.

Lemma parse_pair_encode (m : gmap string (list string)) (k v : string) :
  url.parse_pair m (encode_pair k v) = url.Add m k v.
Proof.
  unfold url.parse_pair.
  rewrite encode_pair_clean by tauto.
  assert (Hne : String.eqb (encode_pair k v) "" = false).
  { apply String.eqb_neq. unfold encode_pair.
    destruct (url.QueryEscape k); discriminate. }
  rewrite Hne. unfold encode_pair.
  change (url.QueryEscape k +:+ "=" +:+ url.QueryEscape v)
    with (url.QueryEscape k +:+ String "=" (url.QueryEscape v)).
  rewrite Cut_append by (apply QueryEscape_clean; tauto).
  now rewrite !QueryUnescape_QueryEscape.
Qed.

Lemma fold_parse_pairs (pairs : list (string * string))
    (m : gmap string (list string)) :
  fold_left url.parse_pair (map (fun p => encode_pair p.1 p.2) pairs) m
  = fold_left (fun m p => url.Add m p.1 p.2) pairs m.
Proof.
  revert m. induction pairs as [|[k v] pairs IH]; intros m; [reflexivity|].
  cbn [map fold_left fst snd]. now rewrite parse_pair_encode, IH.
Qed.


Lemma encode_key_pairs (v : gmap string (list string)) (keys : list string) :
  concat (map (url.encode_key v) keys)
  = map (fun p => encode_pair p.1 p.2) (pairs_of v keys).
Proof.
  unfold pairs_of. induction keys as [|k keys IH]; [reflexivity|].
  cbn [map concat]. rewrite map_app, IH. f_equal.
  unfold url.encode_key. rewrite map_map. reflexivity.
Qed.

Lemma ParseQuery_segments (segs : list string) :
  Forall (fun x => url.has_byte "&" x = false) segs ->
  url.ParseQuery (String.concat "&" segs) = fold_left url.parse_pair segs ∅.
Proof.
  intros Hs. unfold url.ParseQuery. destruct segs as [|x segs]; [reflexivity|].
  rewrite Split_concat; [reflexivity | discriminate | exact Hs].
Qed.

Lemma ParseQuery_Encode_fold (v : gmap string (list string)) :
  url.ParseQuery (url.Encode v)
  = fold_left (fun m p => url.Add m p.1 p.2)
      (pairs_of v (merge_sort (fun a b => Is_true (String.leb a b))
                     (map fst (map_to_list v)))) ∅.
Proof.
  unfold url.Encode. cbv zeta. rewrite encode_key_pairs.
  rewrite ParseQuery_segments.
  - apply fold_parse_pairs.
  - apply Forall_forall. intros x Hx. apply list_elem_of_In in Hx.
    apply in_map_iff in Hx as [[k y] [<- _]].
    apply encode_pair_clean. tauto.
Qed.

Lemma add_all_ne (xs : list string) (m : gmap string (list string))
    (k j : string) :
  j <> k -> add_all m k xs !! j = m !! j.
Proof.
  intros Hne. unfold add_all. revert m.
  induction xs as [|x xs IH]; intros m; [reflexivity|].
  cbn [map fold_left fst snd]. rewrite IH. unfold url.Add.
  now rewrite lookup_insert_ne.
Qed.

Lemma add_all_eq (xs : list string) (m : gmap string (list string))
    (k : string) :
  xs <> [] -> add_all m k xs !! k = Some (default [] (m !! k) ++ xs).
Proof.
  unfold add_all. revert m.
  induction xs as [|x xs IH]; intros m Hne; [contradiction|].
  cbn [map fold_left fst snd]. destruct xs as [|y xs].
  - cbn [map fold_left]. unfold url.Add. now rewrite lookup_insert_eq.
  - rewrite IH by discriminate. unfold url.Add at 1.
    rewrite lookup_insert_eq. simpl. f_equal. now rewrite <- app_assoc.
Qed.

Lemma fold_pairs_lookup (v : gmap string (list string)) (keys : list string) :
  NoDup keys ->
  forall (m0 : gmap string (list string)) (j : string),
    (forall k, k ∈ keys -> m0 !! k = None) ->
    fold_left (fun m p => url.Add m p.1 p.2) (pairs_of v keys) m0 !! j
    = if decide (j ∈ keys)
      then match v !! j with
           | Some (x :: l) => Some (x :: l)
           | _ => None
           end
      else m0 !! j.
Proof.
  unfold pairs_of.
  induction 1 as [|k keys Hk Hnodup IH]; intros m0 j Hfresh.
  - cbn. destruct (decide (j ∈ [])) as [Hin|]; [|reflexivity].
    now apply elem_of_nil in Hin.
  - cbn [map concat]. rewrite fold_left_app.
    fold (add_all m0 k (default [] (v !! k))).
    rewrite IH.
    + destruct (decide (j ∈ keys)) as [Hin|Hnin].
      * destruct (decide (j ∈ k :: keys)) as [_|Hn]; [reflexivity|].
        exfalso. apply Hn. now right.
      * destruct (decide (j = k)) as [->|Hjk].
        -- destruct (decide (k ∈ k :: keys)) as [_|Hn];
             [|exfalso; apply Hn; now left].
           destruct (v !! k) as [[|x l]|] eqn:Hv; simpl.
           ++ apply Hfresh. now left.
           ++ rewrite add_all_eq by discriminate.
              rewrite (Hfresh k) by now left. reflexivity.
           ++ apply Hfresh. now left.
        -- rewrite add_all_ne by exact Hjk.
           destruct (decide (j ∈ k :: keys)) as [Hin|_]; [|reflexivity].
           apply elem_of_cons in Hin as [Heq|Hin]; [congruence | contradiction].
    + intros k' Hk'. destruct (decide (k' = k)) as [->|Hne].
      * contradiction.
      * rewrite add_all_ne by exact Hne. apply Hfresh. now right.
Qed.

(** What Encode writes, ParseQuery reads back. *)
Lemma ParseQuery_Encode (v : gmap string (list string)) :
  nonempty_values v -> url.ParseQuery (url.Encode v) = v.
Proof.
  intros Hv. rewrite ParseQuery_Encode_fold. apply map_eq. intros j.
  set (keys := merge_sort _ _).
  assert (Hperm : keys ≡ₚ map fst (map_to_list v)) by apply merge_sort_Permutation.
  assert (Hnodup : NoDup keys).
  { rewrite Hperm. apply NoDup_fst_map_to_list. }
  rewrite (fold_pairs_lookup v keys Hnodup ∅ j) by (intros; apply lookup_empty).
  assert (Hin : j ∈ keys <-> is_Some (v !! j)).
  { rewrite Hperm. change (map fst (map_to_list v)) with ((map_to_list v).*1).
    rewrite list_elem_of_fmap. split.
    - intros [[k x] [-> Hkx]]. apply elem_of_map_to_list in Hkx. now exists x.
    - intros [x Hx]. exists (j, x). split; [reflexivity|].
      now apply elem_of_map_to_list. }
  destruct (decide (j ∈ keys)) as [Hj|Hj].
  - destruct (v !! j) as [[|x l]|] eqn:Hl; [|reflexivity|reflexivity].
    now apply Hv in Hl.
  - rewrite lookup_empty. destruct (v !! j) eqn:Hl; [|reflexivity].
    exfalso. apply Hj, Hin. now eexists.
Qed.

Lemma nonempty_empty : nonempty_values ∅.
Proof. intros k. now rewrite lookup_empty. Qed.

Lemma nonempty_Set (v : gmap string (list string)) (key value : string) :
  nonempty_values v -> nonempty_values (url.Set_ v key value).
Proof.
  intros Hv k. unfold url.Set_. destruct (decide (key = k)) as [->|Hne].
  - now rewrite lookup_insert_eq.
  - rewrite lookup_insert_ne by exact Hne. apply Hv.
Qed.

Lemma nonempty_Add (v : gmap string (list string)) (key value : string) :
  nonempty_values v -> nonempty_values (url.Add v key value).
Proof.
  intros Hv k. unfold url.Add. destruct (decide (key = k)) as [->|Hne].
  - rewrite lookup_insert_eq. intros [= Heq].
    now destruct (default [] (v !! k)).
  - rewrite lookup_insert_ne by exact Hne. apply Hv.
Qed.

Lemma nonempty_parse_pair (v : gmap string (list string)) (pair : string) :
  nonempty_values v -> nonempty_values (url.parse_pair v pair).
Proof.
  intros Hv. unfold url.parse_pair.
  destruct (url.has_byte ";" pair); [exact Hv|].
  destruct (String.eqb pair ""); [exact Hv|].
  destruct (url.Cut "=" pair) as [key value].
  destruct (url.QueryUnescape key); [|exact Hv].
  destruct (url.QueryUnescape value); [|exact Hv].
  now apply nonempty_Add.
Qed.

(** The query parser never binds a key to an empty list. *)
Lemma nonempty_ParseQuery (query : string) :
  nonempty_values (url.ParseQuery query).
Proof.
  unfold url.ParseQuery.
  assert (Hfold : forall (l : list string) (m : gmap string (list string)),
             nonempty_values m -> nonempty_values (fold_left url.parse_pair l m)).
  { induction l as [|x l IH]; intros m Hm; [exact Hm|].
    cbn [fold_left]. apply IH. now apply nonempty_parse_pair. }
  apply Hfold, nonempty_empty.
Qed.

End Forms.


(** ** More on the dispatcher *)

Section MoreDispatch.

Import Legacy Notions.

Context `{strconv.Quoting} `{url.Parsing}.

(** X3: Do returns a nil Response exactly when the transport fails; the
    error is then the transport's own, and the target is as it was. *)
Theorem Do_nil_response (c : Client) (req : http.Request) (v : option target) :
  fst (fst (Do c req v)) = None
  <-> exists e : error, client c req = inr e /\ Do c req v = (None, Some e, v).
Proof.
  destruct (client c req) as [r|e] eqn:Hc.
  - rewrite (Do_keeps_response c req v r Hc). split; [discriminate|].
    intros (e & He & _). discriminate.
  - unfold Do. rewrite Hc. cbn. split; [|reflexivity].
    intros _. now exists e.
Qed.

(** X4: for a status outside 200..299 Do does not run the decoder: it
    returns the response with the body it read, the error made of method,
    URL, status and body, and the target untouched. *)
Theorem Do_status_error (c : Client) (req : http.Request) (v : option target)
    (r : http.Response) (body : list ascii) :
  client c req = inl r ->
  ioutil.ReadAll (http.Body r) = (body, None) ->
  ~ (200 <= http.StatusCode r <= 299)%Z ->
  Do c req v
  = (Some {| http_Response := r; Body := body |},
     Some (Spec.status_error r body), v).
Proof.
  intros Hc Hread Hr. rewrite (Do_received c req v r Hc).
  rewrite (readResponse_read r body Hread).
  destruct ((http.StatusCode r <? 200) || (299 <? http.StatusCode r))%Z eqn:Ht;
    [reflexivity|].
  apply in_range_test in Ht. contradiction.
Qed.

(** X5: when reading the body breaks off, Do looks neither at the status
    nor at the target: it returns the response without any body bytes,
    also those read before the failure, and the read error. *)
Theorem Do_read_failure (c : Client) (req : http.Request) (v : option target)
    (r : http.Response) (partial : list ascii) (e : error) :
  client c req = inl r ->
  ioutil.ReadAll (http.Body r) = (partial, Some e) ->
  Do c req v
  = (Some {| http_Response := r; Body := [] |},
     Some ("cannot read response body: " +:+ e), v).
Proof.
  intros Hc Hread. rewrite (Do_received c req v r Hc).
  now rewrite (readResponse_broken r partial e Hread).
Qed.

Lemma Do_nil_target_cases (c : Client) (req : http.Request) :
  (exists resp : Response, Do c req None = (Some resp, None, None))
  \/ (exists (resp : option Response) (err : error),
         Do c req None = (resp, Some err, None)).
Proof.
  destruct (client c req) as [r|e] eqn:Hc.
  - rewrite (Do_received c req None r Hc).
    destruct (readResponse r) as [resp [e|]]; [right | left]; eauto.
  - right. unfold Do. rewrite Hc. eauto.
Qed.

(** X6: post and delete, and with them Add, Update and Delete, never
    return both a response and an error, nor neither: the result is a
    response with a nil error, or a nil response with an error. *)
Theorem post_delete_one_of_two (c : Client) (endpoint : string) (id : Z)
    (entry : option body) :
  one_of_two (post c endpoint id entry) /\ one_of_two (delete c endpoint id).
Proof.
  unfold one_of_two, post, delete. split.
  - destruct (NewRequest c "POST" (item_url endpoint id) entry) as [req|e];
      [|right; eauto].
    destruct (Do_nil_target_cases c
                (http.Header_Add req "Content-Type"
                   "application/x-www-form-urlencoded"))
      as [[resp ->] | (resp & err & ->)]; [left | right]; eauto.
  - destruct (NewRequest c "DELETE" (item_url endpoint id) None) as [req|e];
      [|right; eauto].
    destruct (Do_nil_target_cases c req)
      as [[resp ->] | (resp & err & ->)]; [left | right]; eauto.
Qed.

End MoreDispatch.

(** ** More on the request builder *)

Section MoreRequests.

Import Legacy Notions.

Context `{strconv.Quoting} `{url.Parsing}.

Lemma Encode_empty : url.Encode ∅ = "".
Proof. reflexivity. Qed.

Lemma NewRequest_body (c : Client) (method urlStr : string)
    (body : option body) (req : http.Request) :
  NewRequest c method urlStr body = inl req ->
  exists v : gmap string (list string),
    form_values body = inl v /\ http.ReqBody req = url.Encode v.
Proof.
  unfold NewRequest.
  destruct (url.Parse urlStr) as [rel|e]; [|discriminate].
  destruct (form_values body) as [v|e]; [|discriminate].
  destruct (http.NewRequest method _ _) as [req0|e] eqn:Hreq; [|discriminate].
  apply http_NewRequest_body in Hreq. intros [= <-]. exists v.
  split; [reflexivity|].
  destruct (negb (String.eqb (UserAgent c) ""));
    destruct (negb (String.eqb (Username c) "")); exact Hreq.
Qed.

(** X1: the body of a request that NewRequest has built reads back, as a
    form, to the single field data holding the XML that xml.Marshal gave
    for the payload; with a nil payload the body is empty. *)
Theorem NewRequest_form (c : Client) (method urlStr : string)
    (body : option body) (req : http.Request) :
  NewRequest c method urlStr body = inl req ->
  match body with
  | None => http.ReqBody req = "" /\ url.ParseQuery (http.ReqBody req) = ∅
  | Some b =>
      exists data : list ascii,
        marshal b = inl data
        /\ http.ReqBody req = "data=" +:+ url.QueryEscape (string_of data)
        /\ url.ParseQuery (http.ReqBody req) = {[ "data" := [string_of data] ]}
  end.
Proof.
  intros Hreq. destruct (NewRequest_body c method urlStr body req Hreq)
    as (v & Hv & ->).
  destruct body as [b|]; cbn [form_values] in Hv.
  - destruct (marshal b) as [data|e]; [|discriminate].
    injection Hv as <-. exists data. split; [reflexivity|]. split.
    + unfold url.Encode, url.Set_. rewrite insert_empty, map_to_list_singleton.
      cbn. unfold url.encode_key. rewrite lookup_singleton_eq. reflexivity.
    + rewrite ParseQuery_Encode.
      * unfold url.Set_. now rewrite insert_empty.
      * apply nonempty_Set, nonempty_empty.
  - injection Hv as <-. split; reflexivity.
Qed.

Lemma NewRequest_parts (c : Client) (method urlStr : string)
    (body : option body) (req : http.Request) :
  NewRequest c method urlStr body = inl req ->
  exists req0 : http.Request,
    http.Header req0 = ∅
    /\ (forall c' : Client,
           BaseURL c' = BaseURL c ->
           NewRequest c' method urlStr body
           = inl (let req1 :=
                    if negb (String.eqb (UserAgent c') "")
                    then http.Header_Add req0 "User-Agent" (UserAgent c')
                    else req0 in
                  if negb (String.eqb (Username c') "")
                  then http.SetBasicAuth req1 (Username c') (Password c')
                  else req1)).
Proof.
  unfold NewRequest.
  destruct (url.Parse urlStr) as [rel|e]; [|discriminate].
  destruct (form_values body) as [v|e]; [|discriminate].
  destruct (http.NewRequest method _ _) as [req0|e] eqn:Hreq; [|discriminate].
  intros _. exists req0. split; [now apply http_NewRequest_header in Hreq|].
  intros c' ->. now rewrite Hreq.
Qed.

(** X2: SetCredentials and SetUserAgent change nothing of the requests a
    client builds but the header they are about: the request is still
    built, with the same method, URL and body; after SetCredentials the
    Authorization header is Basic base64(username:password), or absent
    for an empty username, and the User-Agent is as before; after
    SetUserAgent the User-Agent is the new one, or absent for an empty
    one, and the Authorization is as before. *)
Theorem setters_request (c : Client) (method urlStr : string)
    (body : option body) (req : http.Request)
    (username password userAgent : string) :
  NewRequest c method urlStr body = inl req ->
  (exists req' : http.Request,
      NewRequest (SetCredentials c username password) method urlStr body
      = inl req'
      /\ http.Method req' = http.Method req
      /\ http.URL req' = http.URL req
      /\ http.ReqBody req' = http.ReqBody req
      /\ http.Header req' !! "User-Agent" = http.Header req !! "User-Agent"
      /\ http.Header req' !! "Authorization"
         = if String.eqb username "" then None
           else Some ["Basic " +:+ base64.EncodeToString
                                     (username +:+ ":" +:+ password)])
  /\ (exists req' : http.Request,
         NewRequest (SetUserAgent c userAgent) method urlStr body = inl req'
         /\ http.Method req' = http.Method req
         /\ http.URL req' = http.URL req
         /\ http.ReqBody req' = http.ReqBody req
         /\ http.Header req' !! "Authorization"
            = http.Header req !! "Authorization"
         /\ http.Header req' !! "User-Agent"
            = if String.eqb userAgent "" then None else Some [userAgent]).
Proof.
  intros Hreq.
  destruct (NewRequest_parts c method urlStr body req Hreq) as (req0 & Hh & Hall).
  rewrite (Hall c eq_refl) in Hreq. injection Hreq as <-.
  split; eexists; (split; [apply Hall; reflexivity|]);
    cbn [SetCredentials SetUserAgent UserAgent Username Password];
    unfold http.SetBasicAuth, http.Header_Set, http.Header_Add,
      url.Set_, url.Add;
    destruct (String.eqb (UserAgent c) ""), (String.eqb (Username c) "");
    try destruct (String.eqb username ""); try destruct (String.eqb userAgent "");
    cbn [negb http.Method http.URL http.ReqBody http.Header]; rewrite ?Hh;
    repeat split;
    repeat first [ rewrite lookup_insert_eq | rewrite lookup_insert_ne by done
                 | rewrite lookup_empty ];
    reflexivity.
Qed.

Lemma NewRequest_method (c : Client) (method urlStr : string)
    (body : option body) (req : http.Request) :
  NewRequest c method urlStr body = inl req ->
  http.Method req = if String.eqb method "" then "GET" else method.
Proof.
  unfold NewRequest.
  destruct (url.Parse urlStr) as [rel|e]; [|discriminate].
  destruct (form_values body) as [v|e]; [|discriminate].
  unfold http.NewRequest.
  destruct (negb (http.validMethod _)); [discriminate|].
  destruct (url.Parse _); [|discriminate].
  intros [= <-].
  now destruct (negb (String.eqb (UserAgent c) ""));
    destruct (negb (String.eqb (Username c) "")).
Qed.

(** X7: what post sends and what it returns when all goes well.  The
    request is the one NewRequest built with one header more: its method
    is POST and its Content-Type holds the single value
    application/x-www-form-urlencoded; when the transport answers it with
    a status in 200..299 and a body that is read, post returns that
    response with the body and a nil error. *)
Theorem post_sends (c : Client) (endpoint : string) (id : Z)
    (entry : option body) (req : http.Request) (r : http.Response)
    (data : list ascii) :
  NewRequest c "POST" (item_url endpoint id) entry = inl req ->
  let sent :=
    http.Header_Add req "Content-Type" "application/x-www-form-urlencoded" in
  client c sent = inl r ->
  ioutil.ReadAll (http.Body r) = (data, None) ->
  (200 <= http.StatusCode r <= 299)%Z ->
  http.Method sent = "POST"
  /\ http.Header sent !! "Content-Type"
     = Some ["application/x-www-form-urlencoded"]
  /\ http.ReqBody sent = http.ReqBody req
  /\ post c endpoint id entry
     = (Some {| http_Response := r; Body := data |}, None).
Proof.
  intros Hreq sent Hc Hread Hr. split; [|split; [|split]].
  - apply (NewRequest_method c "POST" _ entry req Hreq).
  - subst sent. unfold http.Header_Add, url.Add. cbn [http.Header].
    rewrite lookup_insert_eq.
    rewrite (NewRequest_header_map c "POST" _ entry req Hreq). cbv zeta.
    unfold url.Set_, url.Add.
    destruct (negb (String.eqb (UserAgent c) ""));
      destruct (negb (String.eqb (Username c) ""));
      repeat first [ rewrite lookup_insert_ne by done | rewrite lookup_empty ];
      reflexivity.
  - reflexivity.
  - unfold post. rewrite Hreq. fold sent.
    rewrite (Do_received c sent None r Hc), (readResponse_read r data Hread).
    apply in_range_test in Hr. now rewrite Hr.
Qed.

Lemma append_inj_r (a b t : string) : a +:+ t = b +:+ t -> a = b.
Proof.
  intros Heq.
  assert (Hlen : String.length a = String.length b).
  { apply (f_equal String.length) in Heq. rewrite !append_length in Heq. lia. }
  revert b Heq Hlen. induction a as [|x a IH]; intros [|y b] Heq Hlen;
    try discriminate; [reflexivity|].
  rewrite !append_String in Heq. injection Heq as -> Heq.
  f_equal. apply IH; [exact Heq | now injection Hlen].
Qed.

Lemma decimal_of_fun (s : string) (n m : Z) :
  Spec.decimal_of s n -> Spec.decimal_of s m -> n = m.
Proof.
  intros Hn Hm. apply decimal_of_value in Hn, Hm.
  destruct s as [|ch rest]; [contradiction|].
  destruct (Ascii.eqb ch "-").
  - destruct Hn as (x & Hx & _ & ->), Hm as (y & Hy & _ & ->). congruence.
  - destruct (Ascii.eqb ch "+").
    + destruct Hn as [Hn _], Hm as [Hm _]. congruence.
    + congruence.
Qed.

Lemma Itoa_inj (n m : Z) : strconv.Itoa n = strconv.Itoa m -> n = m.
Proof.
  intros Heq. apply (decimal_of_fun (strconv.Itoa n)).
  - apply Itoa_decimal.
  - rewrite Heq. apply Itoa_decimal.
Qed.

(** X8: under one endpoint two ids get the same URL only when they are
    the same id: no two list items share the address post and delete
    use. *)
Theorem item_url_inj (endpoint : string) (id1 id2 : Z) :
  item_url endpoint id1 = item_url endpoint id2 <-> id1 = id2.
Proof.
  split; [|now intros ->].
  unfold item_url. intros Heq. apply String.app_inj in Heq.
  apply append_inj_r in Heq. now apply Itoa_inj.
Qed.

End MoreRequests.

(** ** More on listing *)

Section MoreListing.

Import Spec Current Notions.

Context `{strconv.Quoting} `{url.Parsing}.

(** The values List encodes. *)
Lemma list_query_Encode (req : http.Request) (query : string) (limit offset : Z)
    (fields : list string) :
  exists v : gmap string (list string),
    list_query req query limit offset fields = url.Encode v
    /\ nonempty_values v
    /\ v !! "q" = Some [query]
    /\ v !! "limit"
       = (if (limit =? 0)%Z then url.Query (http.URL req) !! "limit"
          else Some [strconv.Itoa limit])
    /\ v !! "offset"
       = (if (offset =? 0)%Z then url.Query (http.URL req) !! "offset"
          else Some [strconv.Itoa offset])
    /\ v !! "fields"
       = (if (length fields =? 0)%nat
          then url.Query (http.URL req) !! "fields"
          else Some [String.concat "," fields])
    /\ (forall k : string,
           k <> "q" -> k <> "limit" -> k <> "offset" -> k <> "fields" ->
           v !! k = url.Query (http.URL req) !! k).
Proof.
  unfold list_query. eexists. split; [reflexivity|]. split.
  - destruct (negb (limit =? 0)%Z), (negb (offset =? 0)%Z),
      (negb (length fields =? 0)%nat);
      repeat apply nonempty_Set; apply nonempty_ParseQuery.
  - unfold url.Set_.
    destruct (limit =? 0)%Z, (offset =? 0)%Z, (length fields =? 0)%nat;
      cbn [negb]; repeat split; intros;
      repeat first [ rewrite lookup_insert_eq | rewrite lookup_insert_ne by done ];
      reflexivity.
Qed.

(** X9: the query string List puts on the request reads back to what
    List was given: q is the query; limit, offset and fields are the
    arguments when they are not zero or empty, and otherwise whatever the
    request URL had; every other parameter of the request URL is kept. *)
Theorem list_query_values (req : http.Request) (query : string)
    (limit offset : Z) (fields : list string) :
  let sent := url.ParseQuery (list_query req query limit offset fields) in
  sent !! "q" = Some [query]
  /\ sent !! "limit"
     = (if (limit =? 0)%Z then url.Query (http.URL req) !! "limit"
        else Some [strconv.Itoa limit])
  /\ sent !! "offset"
     = (if (offset =? 0)%Z then url.Query (http.URL req) !! "offset"
        else Some [strconv.Itoa offset])
  /\ sent !! "fields"
     = (if (length fields =? 0)%nat then url.Query (http.URL req) !! "fields"
        else Some [String.concat "," fields])
  /\ (forall k : string,
         k <> "q" -> k <> "limit" -> k <> "offset" -> k <> "fields" ->
         sent !! k = url.Query (http.URL req) !! k).
Proof.
  destruct (list_query_Encode req query limit offset fields)
    as (v & -> & Hv & Hrest).
  cbv zeta. rewrite (ParseQuery_Encode v Hv). exact Hrest.
Qed.

(** X10: the offset List sends is the offset parseOffset reads: a page
    URL that carries the query string List wrote for a non-zero offset
    gives that offset back. *)
Theorem parseOffset_list_query (urlStr : string) (u : url.URL)
    (req : http.Request) (query : string) (limit offset : Z)
    (fields : list string) :
  url.Parse urlStr = inl u ->
  url.RawQuery u = list_query req query limit offset fields ->
  offset <> 0%Z ->
  is_int offset ->
  parseOffset urlStr = (offset, None).
Proof.
  intros Hu Hq Hne Hint. apply (parseOffset_decimal urlStr u offset Hu); [|exact Hint].
  unfold url.Query. rewrite Hq.
  destruct (list_query_Encode req query limit offset fields)
    as (v & -> & Hv & _ & _ & Hoff & _).
  rewrite (ParseQuery_Encode v Hv). unfold url.Get. rewrite Hoff.
  apply Z.eqb_neq in Hne. rewrite Hne. apply Itoa_decimal.
Qed.

Variable Anime : Type.
Variable Received : Type.
Variable NewRequest : string -> string -> http.Request + error.
Variable Do :
  http.Request ->
  (Response Received * animeList Anime) + (option (Response Received) * error).

(** X11: when a paging URL is there and parseOffset fails on it, List
    returns a nil list, the response and an error that names the URL.  A
    failure on the previous URL leaves the response as Do returned it and
    the next URL unread; a failure on the next URL comes after the
    previous offset has been written into the response. *)
Theorem List_bad_paging (query : string) (limit offset : Z)
    (fields : list string) (req : http.Request) (resp : Response Received)
    (list : animeList Anime) (x : Z) (e : error) :
  NewRequest "GET" "anime" = inl req ->
  Do (set_RawQuery req (list_query req query limit offset fields))
  = inl (resp, list) ->
  (Previous (Paging_ list) <> "" ->
   parseOffset (Previous (Paging_ list)) = (x, Some e) ->
   List NewRequest Do query limit offset fields
   = (None, Some resp, Some ("previous: " +:+ e)))
  /\ (forall p : Z,
         page_offset (Previous (Paging_ list)) (PrevOffset resp) p ->
         Next (Paging_ list) <> "" ->
         parseOffset (Next (Paging_ list)) = (x, Some e) ->
         List NewRequest Do query limit offset fields
         = (None,
            Some {| received := received resp; NextOffset := NextOffset resp;
                    PrevOffset := p |},
            Some ("next: " +:+ e))).
Proof.
  intros Hreq Hdo. unfold List. rewrite Hreq, Hdo. split.
  - intros Hne Hbad. unfold previous_step.
    apply String.eqb_neq in Hne. now rewrite Hne, Hbad.
  - intros p Hprev Hne Hbad.
    rewrite (previous_step_offset Received resp _ p Hprev).
    unfold next_step. apply String.eqb_neq in Hne. now rewrite Hne, Hbad.
Qed.

End MoreListing.

(** ** The search endpoint *)

Section SearchFacts.

Import Legacy AnimeSearch Notions.

Context `{strconv.Quoting} `{url.Parsing}.

Variable float64 : Type.

Lemma Search_service
    (get : string -> AnimeResult float64 ->
           option Response * option error * AnimeResult float64)
    (s : AnimeService) (query : string) :
  snd (Search get s query)
  = set_SearchEndpoint s
      (with_RawQuery (SearchEndpoint s)
         (url.Encode (url.Set_ (url.Query (SearchEndpoint s)) "q" query))).
Proof.
  unfold Search. cbv zeta.
  now destruct (get _ _) as [[resp [e|]] result].
Qed.


End SearchFacts.

(** ** The update options of the manga list *)

Section OptionFacts.

Import MangaOptions Notions.

Variable itoa : Z -> string.

Lemma apply_is_insert (o : UpdateMyMangaListStatusOption)
    (v : gmap string (list string)) :
  updateMyMangaListStatusApply itoa o v
  = <[option_key o := [option_text itoa o]]> v.
Proof. now destruct o. Qed.

(** X13: update options applied one after the other leave, under each
    key, the text of the last option that is about this key, and leave
    the keys no option is about as they were; so options of different
    kinds can come in any order and of two options of one kind the later
    one counts. *)
Theorem apply_options_lookup (options : list UpdateMyMangaListStatusOption)
    (v : gmap string (list string)) (k : string) :
  apply_options itoa options v !! k
  = match last_for k options with
    | Some o => Some [option_text itoa o]
    | None => v !! k
    end.
Proof.
  unfold apply_options. revert v.
  induction options as [|o rest IH]; intros v; [reflexivity|].
  cbn [fold_left last_for]. rewrite IH.
  destruct (last_for k rest) as [o'|]; [reflexivity|].
  unfold rawOptionFromUpdateMyMangaListStatusOption.
  rewrite apply_is_insert.
  destruct (String.eqb_spec (option_key o) k) as [<-|Hne].
  - now rewrite lookup_insert_eq.
  - now rewrite lookup_insert_ne.
Qed.

End OptionFacts.

(** ** The query of the legacy client *)

Section Queries.

Import Legacy Notions.

Context `{strconv.Quoting} `{url.Parsing}.

(** X14: query sends a GET request without a body and, unlike post and
    delete, keeps the response when the server refuses: for a status
    outside 200..299 it returns the response with the body it read
    together with the error of method, URL, status and body, and leaves
    the result untouched. *)
Theorem query_keeps_response (c : Client) (url : string)
    (result : option target) (req : http.Request) (r : http.Response)
    (body : list ascii) :
  NewRequest c "GET" url None = inl req ->
  client c req = inl r ->
  ioutil.ReadAll (http.Body r) = (body, None) ->
  ~ (200 <= http.StatusCode r <= 299)%Z ->
  http.Method req = "GET"
  /\ http.ReqBody req = ""
  /\ query c url result
     = (Some {| http_Response := r; Body := body |},
        Some (Spec.status_error r body), result).
Proof.
  intros Hreq Hc Hread Hr. split; [|split].
  - apply (NewRequest_method c "GET" url None req Hreq).
  - destruct (NewRequest_body c "GET" url None req Hreq) as (v & Hv & ->).
    cbn [form_values] in Hv. now injection Hv as <-.
  - unfold query. rewrite Hreq, (Do_received c req result r Hc).
    rewrite (readResponse_read r body Hread).
    destruct ((http.StatusCode r <? 200) || (299 <? http.StatusCode r))%Z eqn:Ht;
      [reflexivity|].
    apply in_range_test in Ht. contradiction.
Qed.

End Queries.

(** ** More runs on the sample instance *)

Section MoreRuns.

Import Legacy Spec Current.

#[local] Existing Instance Sample.quoting.
#[local] Existing Instance Sample.parsing.
#[local] Existing Instance Sample.field_zero64.

Lemma NewRequest_form_witness :
  exists data : list ascii,
    marshal (entry_body (Sample.entry_with_status "watching")) = inl data
    /\ http.ReqBody MoreSamples.add_request
       = "data=" +:+ url.QueryEscape (string_of data)
    /\ url.ParseQuery (http.ReqBody MoreSamples.add_request)
       = {[ "data" := [string_of data] ]}.
Proof.
  exact (NewRequest_form (H:=Sample.quoting) (H0:=Sample.parsing) MoreSamples.add_client "POST"
           (item_url addAnimeURL 55)
           (Some (entry_body (Sample.entry_with_status "watching")))
           MoreSamples.add_request eq_refl).
Defined.

Lemma setters_request_witness :
  exists req' : http.Request,
    NewRequest (SetCredentials Sample.anonymous "TestUser" "TestPass")
      "GET" "api/anime/search.xml?q=bebop" None = inl req'
    /\ http.Header req' !! "User-Agent" = Some ["TestAgent"]
    /\ http.Header req' !! "Authorization"
       = Some ["Basic VGVzdFVzZXI6VGVzdFBhc3M="].
Proof.
  destruct (setters_request (H:=Sample.quoting) (H0:=Sample.parsing) Sample.anonymous "GET"
              "api/anime/search.xml?q=bebop" None Sample.anonymous_request
              "TestUser" "TestPass" "OtherAgent" eq_refl)
    as [(req' & Hreq & _ & _ & _ & Hagent & Hauth) _].
  exists req'. split; [exact Hreq|]. split.
  - rewrite Hagent. reflexivity.
  - rewrite Hauth. reflexivity.
Defined.

Lemma Do_status_error_witness :
  Do (Sample.new_client (Sample.fixed_server 404 "Not Found") "u" "p" "a")
     Sample.search_request (Some (Sample.text_target "before"))
  = (Some {| http_Response :=
               Sample.reply 404 "Not Found" Sample.search_request;
             Body := bytes_of "Not Found" |},
     Some "GET http://myanimelist.net/api/anime/search.xml?q=bebop: 404 Not Found",
     Some (Sample.text_target "before")).
Proof.
  refine (Do_status_error (H0:=Sample.parsing)
            (Sample.new_client (Sample.fixed_server 404 "Not Found")
               "u" "p" "a")
            Sample.search_request (Some (Sample.text_target "before"))
            (Sample.reply 404 "Not Found" Sample.search_request)
            (bytes_of "Not Found") eq_refl eq_refl _).
  cbn. lia.
Defined.

Lemma Do_read_failure_witness :
  Do (Sample.new_client (Sample.broken_server 200) "u" "p" "a")
     Sample.search_request (Some (Sample.text_target "before"))
  = (Some {| http_Response :=
               {| http.StatusCode := 200;
                  http.Body := {| http.data := [];
                                  http.failure := Some "unexpected EOF" |};
                  http.Request_ := Sample.search_request |};
             Body := [] |},
     Some "cannot read response body: unexpected EOF",
     Some (Sample.text_target "before")).
Proof.
  exact (Do_read_failure (H0:=Sample.parsing)
           (Sample.new_client (Sample.broken_server 200) "u" "p" "a")
           Sample.search_request (Some (Sample.text_target "before"))
           {| http.StatusCode := 200;
              http.Body := {| http.data := [];
                              http.failure := Some "unexpected EOF" |};
              http.Request_ := Sample.search_request |}
           [] "unexpected EOF" eq_refl eq_refl).
Defined.

Lemma post_sends_witness :
  let sent :=
    http.Header_Add MoreSamples.add_request "Content-Type"
      "application/x-www-form-urlencoded" in
  http.Method sent = "POST"
  /\ http.Header sent !! "Content-Type"
     = Some ["application/x-www-form-urlencoded"]
  /\ http.ReqBody sent = http.ReqBody MoreSamples.add_request
  /\ post MoreSamples.add_client addAnimeURL 55
       (Some (entry_body (Sample.entry_with_status "watching")))
     = (Some {| http_Response := Sample.reply 200 "Created" sent;
                Body := bytes_of "Created" |}, None).
Proof.
  refine (post_sends (H:=Sample.quoting) (H0:=Sample.parsing) MoreSamples.add_client addAnimeURL 55
            (Some (entry_body (Sample.entry_with_status "watching")))
            MoreSamples.add_request
            (Sample.reply 200 "Created"
               (http.Header_Add MoreSamples.add_request "Content-Type"
                  "application/x-www-form-urlencoded"))
            (bytes_of "Created") eq_refl eq_refl eq_refl _).
  cbn. lia.
Defined.

Lemma parseOffset_list_query_witness :
  parseOffset
    "https://api.myanimelist.net/v2/anime?limit=5&offset=10&q=hokuto+no+ken"
  = (10%Z, None).
Proof.
  refine (parseOffset_list_query
            "https://api.myanimelist.net/v2/anime?limit=5&offset=10&q=hokuto+no+ken"
            (Sample.must_parse
               "https://api.myanimelist.net/v2/anime?limit=5&offset=10&q=hokuto+no+ken")
            Sample.list_request "hokuto no ken" 5 10 [] eq_refl eq_refl _
            (small_int 10 _)).
  - discriminate.
  - lia.
Defined.

Lemma List_bad_paging_witness :
  List Sample.json_NewRequest MoreSamples.json_Do_last "hokuto no ken" 5 5 []
  = (None,
     Some {| received := 200%Z; NextOffset := 0; PrevOffset := 5 |},
     Some ("next: " +:+ ("parsing offset: "
                         +:+ strconv.NumError "Atoi" "" "invalid syntax"))).
Proof.
  refine (proj2 (List_bad_paging (H:=Sample.quoting) (H0:=Sample.parsing) string Z Sample.json_NewRequest
                   MoreSamples.json_Do_last "hokuto no ken" 5 5 []
                   Sample.list_request
                   {| received := 200%Z; NextOffset := 0; PrevOffset := 0 |}
                   MoreSamples.last_page 0%Z
                   ("parsing offset: "
                    +:+ strconv.NumError "Atoi" "" "invalid syntax")
                   eq_refl eq_refl) 5%Z _ _ eq_refl).
  - right. split; [discriminate|].
    exists (Sample.must_parse
              "https://api.myanimelist.net/v2/anime?offset=5&limit=5").
    split; [reflexivity|]. split; [exact five | apply small_int; lia].
  - discriminate.
Defined.

Lemma query_keeps_response_witness :
  http.Method MoreSamples.plain_request = "GET"
  /\ http.ReqBody MoreSamples.plain_request = ""
  /\ query MoreSamples.plain_client "api/anime/search.xml?q=bebop"
       (Some (Sample.text_target "before"))
     = (Some {| http_Response :=
                  Sample.reply 404 "Not Found" MoreSamples.plain_request;
                Body := bytes_of "Not Found" |},
        Some "GET http://myanimelist.net/api/anime/search.xml?q=bebop: 404 Not Found",
        Some (Sample.text_target "before")).
Proof.
  refine (query_keeps_response (H:=Sample.quoting) (H0:=Sample.parsing)
            MoreSamples.plain_client "api/anime/search.xml?q=bebop"
            (Some (Sample.text_target "before")) MoreSamples.plain_request
            (Sample.reply 404 "Not Found" MoreSamples.plain_request)
            (bytes_of "Not Found") eq_refl eq_refl eq_refl _).
  cbn. lia.
Defined.

End MoreRuns.
